(** * Leading-edge gene intersections of the GSEA gallery scripts

    A shallow embedding of [create_doxset_rinn_intersections.py] (block
    parser, aggregator, reporter, entry point) and of the block parser of
    [create_doxset_rinn_upset.py], followed by the properties of the
    specification's sections 3, 4, 7 and 8.

    Conventions of the embedding.
    - A Python [str] is a [string]; a character is its code point, and the
      development covers the code points below 256.
    - A Python [dict] is an association list in insertion order ([PyDict]).
    - A Python [set] of strings is a [gset string].  The order in which a set
      is iterated is not fixed by the language; it is an explicit parameter
      ([SetOrder]) of every function that iterates a set.
    - Exceptions are values of [exn]; a computation that may raise returns
      [exn + A]. *)

From Stdlib Require Import ZArith String Ascii List DecimalString.
From stdpp Require Import base option list sorting strings gmap sets.

Local Open Scope string_scope.
Local Open Scope list_scope.
Local Open Scope nat_scope.

(** ** Python string primitives *)

Module PyStr.

Definition TAB : ascii := ascii_of_nat 9.
Definition LF : ascii := ascii_of_nat 10.
Definition CR : ascii := ascii_of_nat 13.
Definition DQUOTE : ascii := ascii_of_nat 34.

(** [str.isspace] on one character: 0x09-0x0D, 0x1C-0x1F, 0x20, 0x85, 0xA0. *)
Definition isspace (c : ascii) : bool :=
  let n := nat_of_ascii c in
  (((9 <=? n) && (n <=? 13)) || ((28 <=? n) && (n <=? 32))
   || (n =? 133) || (n =? 160))%nat.

(** [str.lower] on one character: A-Z and the Latin-1 capitals but 0xD7. *)
Definition lower_char (c : ascii) : ascii :=
  let n := nat_of_ascii c in
  if (((65 <=? n) && (n <=? 90))
      || ((192 <=? n) && (n <=? 222) && negb (n =? 215)))%nat
  then ascii_of_nat (n + 32) else c.

Fixpoint lower (s : string) : string :=
  match s with
  | EmptyString => EmptyString
  | String c r => String (lower_char c) (lower r)
  end.

Fixpoint lstrip_with (p : ascii → bool) (s : string) : string :=
  match s with
  | EmptyString => EmptyString
  | String c r => if p c then lstrip_with p r else s
  end.

Fixpoint rstrip_with (p : ascii → bool) (s : string) : string :=
  match s with
  | EmptyString => EmptyString
  | String c r =>
      match rstrip_with p r with
      | EmptyString => if p c then EmptyString else String c EmptyString
      | r' => String c r'
      end
  end.

(** [s.strip()] *)
Definition strip (s : string) : string :=
  rstrip_with isspace (lstrip_with isspace s).

(** [s.rstrip("\n")] *)
Definition rstrip_nl (s : string) : string :=
  rstrip_with (Ascii.eqb LF) s.

(** [s.startswith(p)] *)
Definition startswith (s p : string) : bool := String.prefix p s.

(** [c in s] for a one-character [c] *)
Fixpoint contains (c : ascii) (s : string) : bool :=
  match s with
  | EmptyString => false
  | String a r => Ascii.eqb a c || contains c r
  end.

(** [s.split(sep)] for a one-character separator: never empty. *)
Fixpoint split (sep : ascii) (s : string) : list string :=
  match s with
  | EmptyString => [EmptyString]
  | String c r =>
      if Ascii.eqb c sep then EmptyString :: split sep r
      else match split sep r with
           | [] => [String c EmptyString]
           | h :: t => String c h :: t
           end
  end.

(** [sep.join(l)] *)
Definition join (sep : string) (l : list string) : string :=
  String.concat sep l.

(** truthiness of a string: non-empty *)
Definition truthy (s : string) : bool :=
  match s with EmptyString => false | _ => true end.

(** [str(n)] for a non-negative integer *)
Definition str_of_nat (n : nat) : string :=
  NilZero.string_of_uint (Nat.to_uint n).

(** Iterating a text stream: the raw lines, each with its terminator.  The
    argument is the text as the stream delivers it, line ends already
    translated to LF. *)
Fixpoint readlines (s : string) : list string :=
  match s with
  | EmptyString => []
  | String c r =>
      if Ascii.eqb c LF then String c EmptyString :: readlines r
      else match readlines r with
           | [] => [String c EmptyString]
           | l :: ls => String c l :: ls
           end
  end.

End PyStr.

(** ** Python list primitives *)

Module PyList.

(** [l.index(x)]: the first position of [x], [None] where Python raises
    [ValueError]. *)
Fixpoint index (x : string) (l : list string) : option nat :=
  match l with
  | [] => None
  | y :: r => if String.eqb y x then Some 0
              else option_map S (index x r)
  end.

(** [while parts and parts[-1] == "": parts.pop()] *)
Fixpoint pop_trailing_empty (parts : list string) : list string :=
  match parts with
  | [] => []
  | p :: r =>
      match pop_trailing_empty r with
      | [] => if String.eqb p EmptyString then [] else [p]
      | r' => p :: r'
      end
  end.

(** Stable insertion sort by a boolean [le] on the elements: the result of
    [list.sort] / [sorted] (any stable sort gives the same list). *)
Section sort.
Context {A : Type} (leb : A → A → bool).

Fixpoint insert_sorted (x : A) (l : list A) : list A :=
  match l with
  | [] => [x]
  | y :: r => if leb x y then x :: l else y :: insert_sorted x r
  end.

Definition sort (l : list A) : list A := foldr insert_sorted [] l.

(** the relation the sort arranges its result by *)
Definition le_of : relation A := λ a b, leb a b = true.
End sort.

(** the longest prefix whose elements satisfy [p] *)
Fixpoint take_while {A} (p : A → bool) (l : list A) : list A :=
  match l with
  | [] => []
  | x :: r => if p x then x :: take_while p r else []
  end.

End PyList.

(** ** Exceptions and the error monad *)

Inductive exn : Type :=
| ValueError (needle : string)   (* [list.index(needle)]: not in the list *)
| TypeError                      (* indexing a list with [None] *)
| IndexError                     (* list index out of range *)
| KeyError (key : string)        (* missing dictionary key *)
| RuntimeError (msg : string).

Definition result (A : Type) : Type := (exn + A)%type.

Global Instance result_ret : MRet (sum exn) := λ _ x, inr x.
Global Instance result_bind : MBind (sum exn) := λ _ _ f m,
  match m with inl e => inl e | inr x => f x end.

Definition raise {A} (e : exn) : result A := inl e.

(** ** Python dictionaries with string keys, in insertion order *)

Module PyDict.

Abbreviation dict V := (list (string * V)).

(** [d.get(k)] *)
Fixpoint get {V} (k : string) (d : dict V) : option V :=
  match d with
  | [] => None
  | (k', v) :: r => if String.eqb k' k then Some v else get k r
  end.

(** [d[k] = v]: in place when [k] is a key, appended otherwise. *)
Fixpoint set {V} (k : string) (v : V) (d : dict V) : dict V :=
  match d with
  | [] => [(k, v)]
  | (k', v') :: r =>
      if String.eqb k' k then (k', v) :: r else (k', v') :: set k v r
  end.

(** [d.setdefault(k, v)], for its effect on [d] *)
Definition setdefault {V} (k : string) (v : V) (d : dict V) : dict V :=
  match get k d with
  | Some _ => d
  | None => d ++ [(k, v)]
  end.

Definition keys {V} (d : dict V) : list string := d.*1.

End PyDict.

(** ** Iteration order of sets

    Every set object of the program is iterated once: the gene set of a
    dataset in [invert_to_gene_counts], the dataset set of a gene in
    [write_csvs].  The order of each iteration is some enumeration of the
    set; which one is left to the interpreter. *)

Inductive set_ref : Type :=
| GenesOf (dataset : string)
| DatasetsOf (gene : string).

Record SetOrder : Type := {
  set_iter : set_ref → gset string → list string;
  set_iter_perm : ∀ r X, set_iter r X ≡ₚ elements X
}.

Definition default_order : SetOrder :=
  {| set_iter := λ _ X, elements X;
     set_iter_perm := λ _ X, reflexivity (elements X) |}.

Definition reverse_order : SetOrder :=
  {| set_iter := λ _ X, reverse (elements X);
     set_iter_perm := λ _ X, reverse_Permutation (elements X) |}.

(** ** Block parser: [parse_doxset_rinn_tsv] *)

Module Parser.
Import PyStr PyList PyDict.

Definition header_marker : string := "NAME" ++ String TAB "".
Definition SYMBOL : string := "SYMBOL".
Definition CORE_ENRICHMENT : string := "CORE ENRICHMENT".

(** The local variables of the parsing loop. *)
Record state : Type := State {
  datasets_to_genes : dict (gset string);
  current_dataset : option string;
  header_cols : option (list string);
  symbol_idx : option nat;
  core_idx : option nat
}.

Definition init : state :=
  {| datasets_to_genes := []; current_dataset := None;
     header_cols := None; symbol_idx := None; core_idx := None |}.

(** [header_cols.index(name)] *)
Definition index_or_raise (name : string) (cols : list string) : result nat :=
  match index name cols with
  | Some i => mret i
  | None => raise (ValueError name)
  end.

(** [parts[i]] for an [i] that may be [None] *)
Definition item (parts : list string) (i : option nat) : result string :=
  match i with
  | None => raise TypeError
  | Some n => match nth_error parts n with
              | Some x => mret x
              | None => raise IndexError
              end
  end.

(** [i or 0] *)
Definition or_zero (i : option nat) : nat := default 0 i.

(** [[c.strip() for c in line.split("\t") if c.strip()]] *)
Definition header_columns (line : string) : list string :=
  List.filter truthy (map strip (split TAB line)).

(** [try: body except ValueError as e: raise h(e)]: the two scripts differ
    only in the handler around the two column lookups. *)
Definition handler : Type := list string → exn → exn.

Definition try_except {A} (h : exn → exn) (body : result A) : result A :=
  match body with
  | inl (ValueError x) => inl (h (ValueError x))
  | other => other
  end.

(** One iteration of [for raw_line in f]. *)
Definition step (h : handler) (st : state) (raw_line : string) : result state :=
  let line := rstrip_nl raw_line in
  if negb (truthy (strip line)) then mret st
  else if negb (contains TAB line) && startswith (strip line) "GSE" then
    let ds := strip line in
    mret {| datasets_to_genes := setdefault ds ∅ (datasets_to_genes st);
            current_dataset := Some ds;
            header_cols := None; symbol_idx := None; core_idx := None |}
  else if bool_decide (header_cols st = None) && startswith line header_marker then
    let cols := header_columns line in
    '(si, ci) ← try_except (h cols)
                  (si ← index_or_raise SYMBOL cols;
                   ci ← index_or_raise CORE_ENRICHMENT cols;
                   mret (si, ci));
    mret {| datasets_to_genes := datasets_to_genes st;
            current_dataset := current_dataset st;
            header_cols := Some cols;
            symbol_idx := Some si; core_idx := Some ci |}
  else
    match current_dataset st, header_cols st with
    | Some ds, Some _ =>
        let parts := pop_trailing_empty (split TAB line) in
        if (length parts <? or_zero (symbol_idx st) `max` or_zero (core_idx st) + 1)%nat
        then mret st
        else
          core_val ← item parts (core_idx st);
          if String.eqb (lower (strip core_val)) "yes" then
            sym ← item parts (symbol_idx st);
            let symbol := strip sym in
            if truthy symbol then
              match get ds (datasets_to_genes st) with
              | None => raise (KeyError ds)
              | Some genes =>
                  mret {| datasets_to_genes :=
                            set ds (genes ∪ {[symbol]}) (datasets_to_genes st);
                          current_dataset := current_dataset st;
                          header_cols := header_cols st;
                          symbol_idx := symbol_idx st;
                          core_idx := core_idx st |}
              end
            else mret st
          else mret st
    | _, _ => mret st
    end.

(** The whole loop. *)
Fixpoint scan (h : handler) (st : state) (lines : list string) : result state :=
  match lines with
  | [] => mret st
  | raw_line :: rest => st' ← step h st raw_line; scan h st' rest
  end.

(** [{k: v for k, v in datasets_to_genes.items() if v}] *)
Definition drop_empty (d : dict (gset string)) : dict (gset string) :=
  filter (λ kv, kv.2 ≠ ∅) d.

End Parser.

(** ** [create_doxset_rinn_intersections.py] *)

Module Intersections.
Import PyStr PyList PyDict Parser.

(** No handler: the [ValueError] of [list.index] propagates. *)
Definition no_handler : handler := λ _ e, e.

Definition parse_lines (lines : list string) : result (dict (gset string)) :=
  st ← scan no_handler init lines;
  mret (drop_empty (datasets_to_genes st)).

Definition parse_doxset_rinn_tsv (text : string) : result (dict (gset string)) :=
  parse_lines (readlines text).

(** [gene_to_datasets[g].add(ds)] on a [defaultdict(set)] *)
Definition add_dataset (ds : string) (acc : dict (gset string)) (g : string)
  : dict (gset string) :=
  match get g acc with
  | Some s => set g (s ∪ {[ds]}) acc
  | None => acc ++ [(g, {[ds]})]
  end.

Definition invert_to_gene_counts (o : SetOrder) (datasets_to_genes : dict (gset string))
  : dict (gset string) :=
  fold_left
    (λ acc '(ds, genes), fold_left (add_dataset ds) (set_iter o (GenesOf ds) genes) acc)
    datasets_to_genes [].

(** A row [(gene, len(ds_set), sorted(ds_set))]. *)
Record row : Type := Row {
  gene : string;
  count : nat;
  ds_list : list string
}.

(** The sort key [(-x[1], x[0])] and the order of such tuples. *)
Definition row_key (r : row) : Z * string := (- Z.of_nat (count r), gene r)%Z.

Definition key_leb (a b : Z * string) : bool :=
  (a.1 <? b.1)%Z || ((a.1 =? b.1)%Z && String.leb a.2 b.2).

Definition row_leb (a b : row) : bool := key_leb (row_key a) (row_key b).

Definition make_row (o : SetOrder) (kv : string * gset string) : row :=
  {| gene := kv.1;
     count := size kv.2;
     ds_list := sort String.leb (set_iter o (DatasetsOf kv.1) kv.2) |}.

(** [rows] after [rows.sort(...)] *)
Definition sorted_rows (o : SetOrder) (gene_to_datasets : dict (gset string)) : list row :=
  sort row_leb (map (make_row o) gene_to_datasets).

(** [rows[0][1] if rows else 0] *)
Definition max_count (rows : list row) : nat :=
  match rows with
  | r :: _ => count r
  | [] => 0
  end.

(** the rows that pass [if count == max_count] *)
Definition max_only (rows : list row) : list row :=
  filter (λ r, count r = max_count rows) rows.

Definition csv_header : list string := ["SYMBOL"; "datasets_count"; "datasets"].

(** the list passed to [writer.writerow] for one row *)
Definition csv_fields (r : row) : list string :=
  [gene r; str_of_nat (count r); join ";" (ds_list r)].

(** [csv.writer] with the default dialect: a field is quoted when it holds
    the delimiter, the quote character, or a line-terminator character;
    quote characters inside are doubled; records end in CR LF. *)
Definition csv_special (c : ascii) : bool :=
  Ascii.eqb c "," || Ascii.eqb c DQUOTE || Ascii.eqb c CR || Ascii.eqb c LF.

Fixpoint csv_needs_quote (s : string) : bool :=
  match s with
  | EmptyString => false
  | String c r => csv_special c || csv_needs_quote r
  end.

Fixpoint csv_double_quotes (s : string) : string :=
  match s with
  | EmptyString => EmptyString
  | String c r =>
      if Ascii.eqb c DQUOTE then String c (String c (csv_double_quotes r))
      else String c (csv_double_quotes r)
  end.

Definition csv_field (s : string) : string :=
  if csv_needs_quote s
  then String DQUOTE (csv_double_quotes s ++ String DQUOTE "")
  else s.

Definition csv_record (fields : list string) : string :=
  join "," (map csv_field fields) ++ String CR (String LF "").

Definition csv_text (records : list (list string)) : string :=
  String.concat "" (map csv_record records).

(** A written file: its name under [outdir], the records passed to
    [writerow], and the text that reaches the file. *)
Record file : Type := File {
  file_name : string;
  records : list (list string);
  content : string
}.

Definition write_file (name : string) (rows : list row) : file :=
  let recs := csv_header :: map csv_fields rows in
  {| file_name := name; records := recs; content := csv_text recs |}.

Definition full_name : string := "DOXSET_RINN_intersections_full.csv".
Definition max_name : string := "DOXSET_RINN_intersections_max_only.csv".

Definition write_csvs (o : SetOrder) (gene_to_datasets : dict (gset string))
  : file * file :=
  let rows := sorted_rows o gene_to_datasets in
  (write_file full_name rows, write_file max_name (max_only rows)).

(** What a run of [main] does: an uncaught exception, or an exit code
    together with the files written. *)
Inductive outcome : Type :=
| Raised (e : exn)
| Exit (code : Z) (written : list file).

Definition main (o : SetOrder) (input : string) : outcome :=
  match parse_doxset_rinn_tsv input with
  | inl e => Raised e
  | inr datasets_to_genes =>
      match datasets_to_genes with
      | [] => Exit 1 []
      | _ =>
          let gene_to_datasets := invert_to_gene_counts o datasets_to_genes in
          let '(full_csv, max_csv) := write_csvs o gene_to_datasets in
          Exit 0 [full_csv; max_csv]
      end
  end.

End Intersections.

(** ** [create_doxset_rinn_upset.py]: the same loop, with a handler *)

Module Upset.
Import PyStr PyList PyDict Parser.

Definition expected_msg (cols : list string) : string :=
  "Expected 'SYMBOL' and 'CORE ENRICHMENT' in header, got: " ++ join ", " cols.

Definition header_handler : handler := λ cols _, RuntimeError (expected_msg cols).

Definition empty_msg : string :=
  "No leading-edge genes parsed from the TSV. Check file format and path.".

Definition parse_lines (lines : list string) : result (dict (gset string)) :=
  st ← scan header_handler init lines;
  let d := drop_empty (datasets_to_genes st) in
  match d with
  | [] => raise (RuntimeError empty_msg)
  | _ => mret d
  end.

Definition parse_doxset_rinn_tsv (text : string) : result (dict (gset string)) :=
  parse_lines (readlines text).

End Upset.

(** ** The parser's reading of the input, as a cursor

    A cursor over the block structure, the fields of a row, and the
    (dataset, symbol) pairs the rows of an input contribute, as the parser
    reads them: the header of a block is the first line of the block that
    begins with the marker, and the two column positions are counted among
    the non-empty cells of that header, as [Parser.header_columns] has them.
    The reading by the header row as written is [ByName], further down. *)

Module Spec.
Import PyStr PyList Parser.

Definition is_blank (line : string) : bool := negb (truthy (strip line)).

(** a bare dataset-identifier line: no field separator, dataset-id prefix *)
Definition is_dataset_line (line : string) : bool :=
  negb (contains TAB line) && startswith (strip line) "GSE".

(** a line that begins with the header marker token *)
Definition is_header_line (line : string) : bool := startswith line header_marker.

(** the [i]-th tab-separated field of a row, empty when the row is shorter *)
Definition field (i : nat) (line : string) : string := nth i (split TAB line) "".

(** the flag column, trimmed and compared case-insensitively with [yes] *)
Definition flagged (ci : nat) (line : string) : bool :=
  String.eqb (lower (strip (field ci line))) "yes".

Definition symbol_of (si : nat) (line : string) : string := strip (field si line).

(** the row contributes its symbol: flagged, and the symbol is not empty *)
Definition contributes (si ci : nat) (line : string) : bool :=
  flagged ci line && truthy (symbol_of si line).

(** positions of the two required columns in a header *)
Definition locate (cols : list string) : option (nat * nat) :=
  match index SYMBOL cols, index CORE_ENRICHMENT cols with
  | Some si, Some ci => Some (si, ci)
  | _, _ => None
  end.

(** the required column a header lacks (the symbol column is looked up first) *)
Definition missing_column (cols : list string) : option string :=
  match index SYMBOL cols, index CORE_ENRICHMENT cols with
  | None, _ => Some SYMBOL
  | Some _, None => Some CORE_ENRICHMENT
  | Some _, Some _ => None
  end.

(** Where the reader is: the current block, and the column positions once
    the block's header has been seen. *)
Record cursor : Type := Cursor {
  block : option string;
  columns : option (nat * nat)
}.

Definition start : cursor := {| block := None; columns := None |}.

(** One line: the new cursor and the pair the line contributes, if any. *)
Definition advance (c : cursor) (raw_line : string)
  : cursor * list (string * string) :=
  let line := rstrip_nl raw_line in
  if is_blank line then (c, [])
  else if is_dataset_line line
  then ({| block := Some (strip line); columns := None |}, [])
  else match columns c with
       | None =>
           if is_header_line line
           then ({| block := block c; columns := locate (header_columns line) |}, [])
           else (c, [])
       | Some (si, ci) =>
           match block c with
           | Some ds =>
               (c, if contributes si ci line then [(ds, symbol_of si line)] else [])
           | None => (c, [])
           end
       end.

(** All (dataset, symbol) pairs flagged in the input, in input order. *)
Fixpoint flagged_pairs (c : cursor) (lines : list string) : list (string * string) :=
  match lines with
  | [] => []
  | raw_line :: rest =>
      let '(c', out) := advance c raw_line in
      out ++ flagged_pairs c' rest
  end.

(** the distinct gene symbols ever flagged in any block of the input *)
Definition flagged_symbols (lines : list string) : gset string :=
  list_to_set (flagged_pairs start lines).*2.

(** the dataset identifiers whose gene set holds [g] *)
Definition datasets_holding (d : PyDict.dict (gset string)) (g : string) : list string :=
  (filter (λ kv, g ∈ kv.2) d).*1.

(** the number of semicolon-separated tokens of a field *)
Definition token_count (s : string) : nat := length (split ";" s).

(** the largest count among the rows *)
Definition largest_count (rows : list Intersections.row) : nat :=
  foldr Nat.max 0 (map Intersections.count rows).

(** [a] may stand before [b]: larger count first, then smaller symbol *)
Definition row_before (a b : Intersections.row) : Prop :=
  Intersections.count b < Intersections.count a
  ∨ (Intersections.count a = Intersections.count b
     ∧ String.le (Intersections.gene a) (Intersections.gene b)).

End Spec.

(** ** Loop invariant and case analysis of the parsing loop *)

Module Loop.
Import PyStr PyList PyDict Parser.

(** gene [g] is in the gene set stored under dataset [ds] *)
Definition member (d : dict (gset string)) (ds g : string) : Prop :=
  ∃ genes, (ds, genes) ∈ d ∧ g ∈ genes.

(** What holds of the loop variables before every iteration. *)
Record wf (st : state) : Prop := Wf {
  wf_keys : NoDup (keys (datasets_to_genes st));
  wf_current : ∀ ds, current_dataset st = Some ds →
                     is_Some (get ds (datasets_to_genes st));
  wf_header : is_Some (header_cols st) →
              is_Some (symbol_idx st) ∧ is_Some (core_idx st)
}.

(** The specification's cursor, read off the loop variables. *)
Definition cursor_of (st : state) : Spec.cursor :=
  {| Spec.block := current_dataset st;
     Spec.columns :=
       match header_cols st, symbol_idx st, core_idx st with
       | Some _, Some si, Some ci => Some (si, ci)
       | _, _, _ => None
       end |}.

(** the state after [datasets_to_genes[ds].add(symbol)] *)
Definition add_symbol (st : state) (ds : string) (genes : gset string)
    (symbol : string) : state :=
  {| datasets_to_genes := set ds (genes ∪ {[symbol]}) (datasets_to_genes st);
     current_dataset := current_dataset st;
     header_cols := header_cols st;
     symbol_idx := symbol_idx st;
     core_idx := core_idx st |}.

(** the state after a dataset-identifier line *)
Definition open_block (st : state) (ds : string) : state :=
  {| datasets_to_genes := setdefault ds ∅ (datasets_to_genes st);
     current_dataset := Some ds;
     header_cols := None; symbol_idx := None; core_idx := None |}.

(** the state after a header line with both columns *)
Definition set_header (st : state) (cols : list string) (si ci : nat) : state :=
  {| datasets_to_genes := datasets_to_genes st;
     current_dataset := current_dataset st;
     header_cols := Some cols;
     symbol_idx := Some si; core_idx := Some ci |}.

(** The six ways an iteration can go. *)
Inductive step_case (h : handler) (st : state) (line : string)
  : result state → Prop :=
| case_blank :
    Spec.is_blank line = true →
    step_case h st line (inr st)
| case_dataset :
    Spec.is_blank line = false →
    Spec.is_dataset_line line = true →
    step_case h st line (inr (open_block st (strip line)))
| case_header si ci :
    Spec.is_blank line = false →
    Spec.is_dataset_line line = false →
    header_cols st = None →
    Spec.is_header_line line = true →
    Spec.locate (header_columns line) = Some (si, ci) →
    step_case h st line (inr (set_header st (header_columns line) si ci))
| case_header_missing col :
    Spec.is_blank line = false →
    Spec.is_dataset_line line = false →
    header_cols st = None →
    Spec.is_header_line line = true →
    Spec.missing_column (header_columns line) = Some col →
    step_case h st line (inl (h (header_columns line) (ValueError col)))
| case_outside :
    Spec.is_blank line = false →
    Spec.is_dataset_line line = false →
    (header_cols st = None → Spec.is_header_line line = false) →
    current_dataset st = None ∨ header_cols st = None →
    step_case h st line (inr st)
| case_data ds cols si ci genes :
    Spec.is_blank line = false →
    Spec.is_dataset_line line = false →
    current_dataset st = Some ds →
    header_cols st = Some cols →
    symbol_idx st = Some si →
    core_idx st = Some ci →
    get ds (datasets_to_genes st) = Some genes →
    step_case h st line
      (inr (if Spec.contributes si ci line
            then add_symbol st ds genes (Spec.symbol_of si line)
            else st)).

End Loop.

(** ** Reading the aggregator's dictionary *)

Module Agg.
Import PyDict.

(** the set stored under [g], empty when [g] is not a key: what
    [defaultdict(set)] shows for [g] *)
Definition datasets_at (acc : dict (gset string)) (g : string) : gset string :=
  default ∅ (get g acc).

Definition all_nonempty (acc : dict (gset string)) : Prop :=
  ∀ g S, get g acc = Some S → S ≠ ∅.

(** the dataset identifiers of [d] whose gene set holds [g], as a set *)
Definition holders (d : dict (gset string)) (g : string) : gset string :=
  list_to_set (Spec.datasets_holding d g).

End Agg.

(** ** Sample inputs *)

Module Samples.
Import PyStr.

Definition tab : string := String TAB "".
Definition nl : string := String LF "".

Definition header_row : string :=
  "NAME" ++ tab ++ "SYMBOL" ++ tab ++ "CORE ENRICHMENT" ++ nl.

Definition data_row (name symbol flag : string) : string :=
  name ++ tab ++ symbol ++ tab ++ flag ++ nl.

(** the example of section 8: GSE1 flags A and B, GSE2 flags B and C *)
Definition two_blocks : string :=
  "GSE1" ++ nl ++ header_row
  ++ data_row "row_0" "A" "Yes" ++ data_row "row_1" "B" "Yes"
  ++ "GSE2" ++ nl ++ header_row
  ++ data_row "row_0" "B" "Yes" ++ data_row "row_1" "C" "Yes".

(** a dataset identifier that holds a semicolon *)
Definition semicolon_id : string :=
  "GSE;1" ++ nl ++ header_row ++ data_row "row_0" "A" "Yes".

(** a second marker line inside a block that already has its header *)
Definition marker_inside_block : string :=
  "GSE1" ++ nl ++ header_row
  ++ "NAME" ++ tab ++ "SYMBOL" ++ nl
  ++ data_row "row_0" "A" "Yes".

(** a block header without the flag column *)
Definition missing_flag_column : string :=
  "GSE1" ++ nl ++ "NAME" ++ tab ++ "SYMBOL" ++ nl ++ data_row "row_0" "A" "Yes".

(** the identifier GSE1 opens two blocks *)
Definition repeated_id : string :=
  "GSE1" ++ nl ++ header_row ++ data_row "row_0" "A" "Yes"
  ++ "GSE2" ++ nl ++ header_row ++ data_row "row_0" "B" "Yes"
  ++ "GSE1" ++ nl ++ header_row ++ data_row "row_0" "C" "Yes".

(** a block with a row that stops before the flag column *)
Definition short_row : string :=
  "GSE1" ++ nl ++ header_row
  ++ "row_0" ++ tab ++ "A" ++ nl
  ++ data_row "row_1" "B" "yes".

(** the loop variables after the first two lines of [two_blocks] *)
Definition in_block : Parser.state :=
  Loop.set_header (Loop.open_block Parser.init "GSE1")
    ["NAME"; "SYMBOL"; "CORE ENRICHMENT"] 1 2.

(** no row is flagged *)
Definition nothing_flagged : string :=
  "GSE1" ++ nl ++ header_row ++ data_row "row_0" "A" "No".

End Samples.

(** ** [concatenate_gsea_tsvs.py]: the producer of the parser's input *)

Module Concatenate.
Import PyStr PyList.

Definition nl : string := String LF "".

(** [s.endswith("\n")] *)
Fixpoint endswith_nl (s : string) : bool :=
  match s with
  | EmptyString => false
  | String c r =>
      match r with
      | EmptyString => Ascii.eqb c LF
      | String _ _ => endswith_nl r
      end
  end.

(** [folder_name.split('_')[0]] *)
Definition gse_accession (folder_name : string) : string :=
  match split "_" folder_name with
  | x :: _ => x
  | [] => EmptyString
  end.

(** The directory tree as the function reads it: a folder is known by its
    name under the base directory, and [fs folder] is the text of the
    folder's [file_name], [None] when [tsv_file.exists()] is false. *)
Definition tree : Type := string → option string.

(** what is written for one folder whose file exists *)
Definition block_text (files_processed : nat) (folder content : string) : string :=
  (if 0 <? files_processed then nl else EmptyString)
  ++ gse_accession folder ++ nl
  ++ content
  ++ (if endswith_nl content then EmptyString else nl).

(** the loop [for folder in folders], [files_processed] threaded; the
    result is the text written to [outfile] *)
Fixpoint write_folders (fs : tree) (files_processed : nat) (folders : list string)
  : string :=
  match folders with
  | [] => EmptyString
  | folder :: rest =>
      match fs folder with
      | Some content =>
          block_text files_processed folder content
          ++ write_folders fs (S files_processed) rest
      | None => write_folders fs files_processed rest
      end
  end.

(** [concatenate_tsv_files]: [globbed] is the result of [glob.glob];
    [None] when the function returns before opening the output file. *)
Definition concatenate_tsv_files (fs : tree) (globbed : list string)
  : option string :=
  let folders := sort String.leb globbed in
  match folders with
  | [] => None
  | _ => Some (write_folders fs 0 folders)
  end.

End Concatenate.

(** ** Further readings of the input and of the mappings *)

Module Blocks.
Import PyStr PyList PyDict.

(** a stored dataset identifier: trimmed, without a tab, with the prefix *)
Definition clean_id (ds : string) : Prop :=
  strip ds = ds ∧ contains TAB ds = false ∧ startswith ds "GSE" = true.

(** a stored gene symbol: trimmed, not empty, without a tab *)
Definition clean_symbol (g : string) : Prop :=
  strip g = g ∧ g ≠ EmptyString ∧ contains TAB g = false.

(** the cursor at the start of the block of [ds] *)
Definition block_cursor (ds : string) : Spec.cursor :=
  {| Spec.block := Some ds; Spec.columns := None |}.

(** the cursor after some lines *)
Definition cursor_after (c : Spec.cursor) (lines : list string) : Spec.cursor :=
  fold_left (λ c raw_line, (Spec.advance c raw_line).1) lines c.

(** a text with its final line terminated, as the concatenation writes it *)
Definition terminated (content : string) : string :=
  content ++ (if Concatenate.endswith_nl content then EmptyString else Concatenate.nl).

(** the pairs flagged in one source file, read as the block of [ds] *)
Definition file_pairs (ds content : string) : list (string * string) :=
  Spec.flagged_pairs (block_cursor ds) (readlines (terminated content)).

(** an accession that the parser reads back as a dataset line *)
Definition readable_accession (acc : string) : Prop :=
  contains LF acc = false ∧ Spec.is_dataset_line acc = true.

(** the folders whose file exists, each with its accession and text *)
Definition existing (fs : Concatenate.tree) (folders : list string)
  : list (string * string) :=
  omap (λ folder, content ← fs folder; Some (Concatenate.gse_accession folder, content))
    folders.

(** the block of one source file: the accession line, then the text *)
Definition block (b : string * string) : string :=
  b.1 ++ Concatenate.nl ++ terminated b.2.

(** what the source files of a folder list contribute when parsed back *)
Definition folder_pairs (fs : Concatenate.tree) (folder : string)
  : list (string * string) :=
  match fs folder with
  | Some content => file_pairs (strip (Concatenate.gse_accession folder)) content
  | None => []
  end.

(** the number of (dataset, gene) memberships of a mapping *)
Definition memberships (d : dict (gset string)) : nat :=
  sum_list_with (λ kv, size kv.2) d.

(** [l1] is an initial segment of [l2] *)
Definition initial_segment {A} (l1 l2 : list A) : Prop := ∃ k, l2 = l1 ++ k.

End Blocks.

Module ConcatSamples.
Import PyStr.

(** two result folders and one folder without the file *)
Definition tree : Concatenate.tree := λ folder,
  if String.eqb folder "GSE1_DOXSET_RINN.Gsea.1" then
    Some (Samples.header_row ++ Samples.data_row "row_0" "A" "Yes")%string
  else if String.eqb folder "GSE2_DOXSET_RINN.Gsea.2" then
    Some (Samples.header_row ++ "row_0" ++ Samples.tab ++ "B" ++ Samples.tab ++ "Yes")%string
  else None.

Definition globbed : list string :=
  ["GSE2_DOXSET_RINN.Gsea.2"; "GSE3_DOXSET_RINN.Gsea.3"; "GSE1_DOXSET_RINN.Gsea.1"].

End ConcatSamples.

(** ** The specification's reading of the input, by the header row as written

    Section 4.1 sorts lines by their shape: blank, bare dataset identifier,
    header (any line that begins with the marker token), data.  The two
    columns are located by name in the header row, and a data row is read
    at those positions.  This reading counts every cell of the header row,
    empty ones too, as the data rows keep theirs. *)

Module ByName.
Import PyStr PyList Parser.

(** the cells of a header row as written: trimmed, empty cells kept *)
Definition header_cells (line : string) : list string :=
  map strip (split TAB line).

(** the positions of the two named cells in the header row *)
Definition locate (line : string) : option (nat * nat) :=
  match index SYMBOL (header_cells line),
        index CORE_ENRICHMENT (header_cells line) with
  | Some si, Some ci => Some (si, ci)
  | _, _ => None
  end.

(** One line: the new cursor and the pair the line contributes, if any. *)
Definition advance (c : Spec.cursor) (raw_line : string)
  : Spec.cursor * list (string * string) :=
  let line := rstrip_nl raw_line in
  if Spec.is_blank line then (c, [])
  else if Spec.is_dataset_line line
  then ({| Spec.block := Some (strip line); Spec.columns := None |}, [])
  else if Spec.is_header_line line
  then ({| Spec.block := Spec.block c; Spec.columns := locate line |}, [])
  else match Spec.columns c, Spec.block c with
       | Some (si, ci), Some ds =>
           (c, if Spec.contributes si ci line
               then [(ds, Spec.symbol_of si line)] else [])
       | _, _ => (c, [])
       end.

(** All (dataset, symbol) pairs flagged in the input, in input order. *)
Fixpoint flagged_pairs (c : Spec.cursor) (lines : list string)
  : list (string * string) :=
  match lines with
  | [] => []
  | raw_line :: rest =>
      let '(c', out) := advance c raw_line in
      out ++ flagged_pairs c' rest
  end.

(** the distinct gene symbols flagged in some block of the input *)
Definition flagged_symbols (lines : list string) : gset string :=
  list_to_set (flagged_pairs Spec.start lines).*2.

(** the cursor after some lines *)
Definition cursor_after (c : Spec.cursor) (lines : list string) : Spec.cursor :=
  fold_left (λ c raw_line, (advance c raw_line).1) lines c.

(** The header lines of the input are regular: every line that begins with
    the marker comes while its block has no column positions yet (it is the
    first header line of its block), and its two required names stand at the
    same positions whether its empty cells are counted or dropped. *)
Fixpoint regular (c : Spec.cursor) (lines : list string) : bool :=
  match lines with
  | [] => true
  | raw_line :: rest =>
      let line := rstrip_nl raw_line in
      (if Spec.is_header_line line
       then bool_decide (Spec.columns c = None)
            && bool_decide (locate line = Spec.locate (header_columns line))
       else true)
      && regular (advance c raw_line).1 rest
  end.

End ByName.

(** ** Sample inputs with irregular headers or identifiers *)

Module GapSamples.
Import PyStr.

(** a header row with an empty cell before the two named cells *)
Definition header_gap : string :=
  "NAME" ++ Samples.tab ++ Samples.tab ++ "SYMBOL" ++ Samples.tab
  ++ "CORE ENRICHMENT" ++ Samples.nl.

(** a row of that layout: SYMBOL cell [A], CORE ENRICHMENT cell [Yes] *)
Definition row_flagged : string :=
  "row_0" ++ Samples.tab ++ Samples.tab ++ "A" ++ Samples.tab ++ "Yes" ++ Samples.nl.

(** a row of that layout: SYMBOL cell [yes], CORE ENRICHMENT cell [No] *)
Definition row_not_flagged : string :=
  "row_0" ++ Samples.tab ++ "X" ++ Samples.tab ++ "yes" ++ Samples.tab ++ "No"
  ++ Samples.nl.

(** GSE1 under the header with the empty cell flags A; GSE2 flags B *)
Definition flagged_under_gap : string :=
  "GSE1" ++ Samples.nl ++ header_gap ++ row_flagged
  ++ "GSE2" ++ Samples.nl ++ Samples.header_row
  ++ Samples.data_row "row_0" "B" "Yes".

(** GSE1 under the header with the empty cell, one row that is not flagged *)
Definition not_flagged_under_gap : string :=
  "GSE1" ++ Samples.nl ++ header_gap ++ row_not_flagged.

(** the loop variables after the first two lines of the two inputs above *)
Definition after_gap_header : Parser.state :=
  Loop.set_header (Loop.open_block Parser.init "GSE1")
    ["NAME"; "SYMBOL"; "CORE ENRICHMENT"] 1 2.

(** three blocks that all flag A: GSE1, then an identifier made of GSE1, a
    semicolon and GSE1, then GSE1 again *)
Definition semicolon_repeat : string :=
  "GSE1" ++ Samples.nl ++ Samples.header_row ++ Samples.data_row "row_0" "A" "Yes"
  ++ "GSE1;GSE1" ++ Samples.nl ++ Samples.header_row
  ++ Samples.data_row "row_0" "A" "Yes"
  ++ "GSE1" ++ Samples.nl ++ Samples.header_row
  ++ Samples.data_row "row_0" "A" "Yes".

End GapSamples.

(** ** Facts about the string and list primitives *)

Section string_facts.
Import PyStr PyList.

Lemma rstrip_with_cons_keep p c r :
  p c = false → rstrip_with p (String c r) ≠ EmptyString.
Proof.
  intros Hc. simpl. destruct (rstrip_with p r); [rewrite Hc|]; discriminate.
Qed.

Lemma strip_cons_keep c r : isspace c = false → truthy (strip (String c r)) = true.
Proof.
  intros Hc. unfold strip. simpl. rewrite Hc.
  pose proof (rstrip_with_cons_keep isspace c r Hc) as Hne.
  destruct (rstrip_with isspace (String c r)); [done|reflexivity].
Qed.

Lemma contains_app_r c s1 s2 : contains c s2 = true → contains c (s1 ++ s2)%string = true.
Proof.
  intros H. induction s1 as [|a s1 IH]; simpl; [done|].
  rewrite IH. apply orb_true_r.
Qed.

Lemma prefix_split p s : String.prefix p s = true → ∃ r, s = (p ++ r)%string.
Proof.
  revert s. induction p as [|a p IH]; intros s H; simpl in *.
  - exists s. reflexivity.
  - destruct s as [|b s]; simpl in H; [done|].
    destruct (ascii_dec a b) as [->|]; [|done].
    destruct (IH _ H) as [r ->]. exists r. reflexivity.
Qed.

(** A line that begins with the header marker is neither blank nor free of
    tabs. *)
Lemma header_line_shape line :
  startswith line Parser.header_marker = true →
  truthy (strip line) = true ∧ contains TAB line = true.
Proof.
  intros H. apply prefix_split in H as [r ->]. split.
  - by apply strip_cons_keep.
  - apply (contains_app_r TAB "NAME" (String TAB r)). done.
Qed.

Lemma split_nonempty sep s : split sep s ≠ [].
Proof.
  destruct s as [|c r]; simpl; [done|].
  destruct (Ascii.eqb c sep); [done|]. by destruct (split sep r).
Qed.

Lemma split_no_sep sep s : contains sep s = false → split sep s = [s].
Proof.
  induction s as [|c r IH]; simpl; [done|].
  intros [Hc Hr]%orb_false_elim. rewrite Hc, (IH Hr). done.
Qed.

Lemma split_app_sep sep a b :
  contains sep a = false →
  split sep (a ++ String sep b)%string = a :: split sep b.
Proof.
  induction a as [|c r IH]; simpl.
  - intros _. by rewrite Ascii.eqb_refl.
  - intros [Hc Hr]%orb_false_elim. rewrite Hc, (IH Hr). done.
Qed.

(** Tokens of a joined list: one per element, when no element holds the
    separator and the list is not empty. *)
Lemma split_join sep l :
  l ≠ [] → Forall (λ s, contains sep s = false) l →
  split sep (join (String sep "") l) = l.
Proof.
  intros Hne Hall. induction Hall as [|x l Hx Hl IH]; [done|].
  destruct l as [|y l].
  - simpl. by apply split_no_sep.
  - change (join (String sep "") (x :: y :: l))
      with (x ++ String sep (join (String sep "") (y :: l)))%string.
    rewrite split_app_sep by done. f_equal. by apply IH.
Qed.

Lemma nth_pop_trailing_empty parts i :
  nth i (pop_trailing_empty parts) "" = nth i parts "".
Proof.
  revert i. induction parts as [|p r IH]; intros i; [done|]. simpl.
  destruct (pop_trailing_empty r) as [|q r'] eqn:Hr.
  - destruct i as [|i].
    + destruct (String.eqb_spec p ""); by subst.
    + simpl. rewrite <-IH. by destruct (String.eqb p ""), i.
  - destruct i as [|i]; [done|]. simpl. by rewrite <-IH.
Qed.

Lemma nth_error_nth_default (l : list string) i :
  i < length l → nth_error l i = Some (nth i l "").
Proof. intros H. by apply nth_error_nth'. Qed.

Lemma index_Some_lt x l i : index x l = Some i → i < length l.
Proof.
  revert i. induction l as [|y r IH]; intros i; simpl; [done|].
  destruct (String.eqb y x).
  - intros [= <-]. lia.
  - destruct (index x r) as [j|]; [|done]. intros [= <-].
    specialize (IH j eq_refl). lia.
Qed.

End string_facts.

(** ** Facts about the stable sort *)

Section sort_facts.
Import PyList.
Context {A : Type} (leb : A → A → bool).

Lemma insert_sorted_Permutation x l : insert_sorted leb x l ≡ₚ x :: l.
Proof.
  induction l as [|y r IH]; simpl; [done|].
  destruct (leb x y); [done|]. rewrite IH. apply Permutation_swap.
Qed.

Lemma sort_Permutation l : sort leb l ≡ₚ l.
Proof.
  induction l as [|x r IH]; simpl; [done|].
  by rewrite insert_sorted_Permutation, IH.
Qed.

Lemma sort_length l : length (sort leb l) = length l.
Proof. by rewrite sort_Permutation. Qed.

Lemma sort_elem_of x l : x ∈ sort leb l ↔ x ∈ l.
Proof. by rewrite sort_Permutation. Qed.

Section ordered.
Hypothesis leb_total : ∀ a b, leb a b = true ∨ leb b a = true.
Hypothesis leb_trans : ∀ a b c, leb a b = true → leb b c = true → leb a c = true.

Lemma insert_sorted_StronglySorted x l :
  StronglySorted (le_of leb) l → StronglySorted (le_of leb) (insert_sorted leb x l).
Proof.
  induction 1 as [|y r Hr IH Hy]; simpl.
  - repeat constructor.
  - destruct (leb x y) eqn:Hxy.
    + constructor; [by constructor|]. constructor; [done|].
      eapply Forall_impl; [exact Hy|]. intros z Hz. by eapply leb_trans.
    + constructor; [done|]. rewrite insert_sorted_Permutation.
      constructor; [|done].
      destruct (leb_total x y) as [E|E]; [congruence|done].
Qed.

Lemma sort_StronglySorted l : StronglySorted (le_of leb) (sort leb l).
Proof.
  induction l as [|x r IH]; simpl; [constructor|].
  by apply insert_sorted_StronglySorted.
Qed.

(** The sorted list does not depend on the order of the input, as long
    as the order is antisymmetric on the elements at hand. *)
Lemma sort_Permutation_eq l1 l2 :
  l1 ≡ₚ l2 →
  (∀ a b, a ∈ l1 → b ∈ l1 → leb a b = true → leb b a = true → a = b) →
  sort leb l1 = sort leb l2.
Proof.
  intros Hp Hanti.
  apply (StronglySorted_unique_strong (le_of leb)); [|apply sort_StronglySorted..|].
  - intros a b Ha Hb. apply Hanti.
    + by apply (proj1 (sort_elem_of a l1)).
    + rewrite Hp. by apply (proj1 (sort_elem_of b l2)).
  - by rewrite !sort_Permutation.
Qed.
End ordered.
End sort_facts.

Lemma string_leb_total a b : String.leb a b = true ∨ String.leb b a = true.
Proof. apply String.leb_total. Qed.

Lemma string_leb_trans a b c :
  String.leb a b = true → String.leb b c = true → String.leb a c = true.
Proof.
  intros H1 H2. apply Is_true_true. apply Is_true_true in H1, H2.
  exact (PreOrder_Transitive (R:=String.le) a b c H1 H2).
Qed.

(** [sorted(s)] is the same list whatever order the set is iterated in. *)
Lemma sorted_set_order_irrel (l1 l2 : list string) :
  l1 ≡ₚ l2 → PyList.sort String.leb l1 = PyList.sort String.leb l2.
Proof.
  intros Hp.
  apply sort_Permutation_eq; [apply string_leb_total|apply string_leb_trans|done|].
  intros a b _ _. apply String.leb_antisym.
Qed.

(** ** Facts about dictionaries *)

Section dict_facts.
Import PyDict.
Context {V : Type}.
Implicit Types (d : dict V) (k : string) (v : V).

Lemma get_Some_elem_of k v d : get k d = Some v → (k, v) ∈ d.
Proof.
  induction d as [|[k' v'] r IH]; simpl; [done|].
  destruct (String.eqb_spec k' k) as [->|].
  - intros [= ->]. left.
  - intros H. right. by apply IH.
Qed.

Lemma get_None_keys k d : get k d = None ↔ k ∉ keys d.
Proof.
  unfold keys. induction d as [|[k' v'] r IH]; simpl.
  - split; [intros _; apply not_elem_of_nil|done].
  - destruct (String.eqb_spec k' k) as [->|Hne].
    + split; [done|]. intros H. destruct H. left.
    + rewrite IH, not_elem_of_cons. split; [by split|by intros [_ ?]].
Qed.

Lemma get_is_Some_keys k d : is_Some (get k d) ↔ k ∈ keys d.
Proof.
  destruct (get k d) eqn:E.
  - split; [|by eauto]. intros _. apply get_Some_elem_of in E.
    unfold keys. apply list_elem_of_fmap. by exists (k, v).
  - split; [by intros []|]. intros H. by apply get_None_keys in E.
Qed.

Lemma elem_of_get k v d : NoDup (keys d) → (k, v) ∈ d → get k d = Some v.
Proof.
  unfold keys. induction d as [|[k' v'] r IH]; simpl.
  - intros _ H. by apply elem_of_nil in H.
  - intros [Hk Hr]%NoDup_cons [[= -> ->]|Hin]%elem_of_cons.
    + by rewrite String.eqb_refl.
    + destruct (String.eqb_spec k' k) as [->|]; [|by apply IH].
      destruct Hk. apply list_elem_of_fmap. by exists (k, v).
Qed.

Lemma get_app k d1 d2 :
  get k (d1 ++ d2) = match get k d1 with Some v => Some v | None => get k d2 end.
Proof.
  induction d1 as [|[k' v'] r IH]; simpl; [done|].
  by destruct (String.eqb k' k).
Qed.

Lemma set_absent k v d : get k d = None → set k v d = d ++ [(k, v)].
Proof.
  induction d as [|[k' v'] r IH]; simpl; [done|].
  destruct (String.eqb k' k); [done|]. intros H. by rewrite IH.
Qed.

Lemma keys_set_present k v d : is_Some (get k d) → keys (set k v d) = keys d.
Proof.
  unfold keys. induction d as [|[k' v'] r IH]; simpl.
  - by intros [].
  - destruct (String.eqb k' k); [done|]. intros H. simpl. f_equal. by apply IH.
Qed.

Lemma get_set k v d k' :
  get k' (set k v d) = if decide (k' = k) then Some v else get k' d.
Proof.
  induction d as [|[k0 v0] r IH]; simpl.
  - destruct (String.eqb_spec k k'); case_decide; congruence.
  - destruct (String.eqb_spec k0 k) as [->|Hne]; simpl.
    + destruct (String.eqb_spec k k'); case_decide; congruence.
    + rewrite IH. destruct (String.eqb_spec k0 k'); case_decide; congruence.
Qed.

Lemma keys_app d1 d2 : keys (d1 ++ d2) = keys d1 ++ keys d2.
Proof. unfold keys. apply fmap_app. Qed.

Lemma NoDup_keys_snoc k v d :
  NoDup (keys d) → get k d = None → NoDup (keys (d ++ [(k, v)])).
Proof.
  intros Hd Hk. rewrite keys_app. apply NoDup_app. split; [done|].
  split; [|apply NoDup_singleton].
  intros x Hx [->|[]%elem_of_nil]%elem_of_cons. by apply get_None_keys in Hk.
Qed.

Lemma NoDup_keys_setdefault k v d :
  NoDup (keys d) → NoDup (keys (setdefault k v d)).
Proof.
  intros Hd. unfold setdefault. destruct (get k d) eqn:E; [done|].
  by apply NoDup_keys_snoc.
Qed.

Lemma get_setdefault k v d k' :
  get k' (setdefault k v d) =
    match get k' d with
    | Some x => Some x
    | None => if decide (k' = k) then Some v else None
    end.
Proof.
  unfold setdefault. destruct (get k d) eqn:E.
  - destruct (get k' d) eqn:E'; [done|]. case_decide; congruence.
  - rewrite get_app. destruct (get k' d); [done|]. simpl.
    destruct (String.eqb_spec k k'); case_decide; congruence.
Qed.

Lemma NoDup_keys_NoDup d : NoDup (keys d) → NoDup d.
Proof. unfold keys. apply NoDup_fmap_1. Qed.

End dict_facts.

(** ** One iteration of the parsing loop *)

Section step_facts.
Import PyStr PyList PyDict Parser Loop.

Lemma flagged_empty_field ci line :
  Spec.field ci line = "" → Spec.flagged ci line = false.
Proof. unfold Spec.flagged. by intros ->. Qed.

Lemma symbol_empty_field si line :
  Spec.field si line = "" → truthy (Spec.symbol_of si line) = false.
Proof. unfold Spec.symbol_of. by intros ->. Qed.

Lemma field_beyond_trimmed i line :
  (length (pop_trailing_empty (split TAB line)) ≤ i)%nat → Spec.field i line = "".
Proof.
  intros Hlen. unfold Spec.field. rewrite <-nth_pop_trailing_empty.
  by apply nth_overflow.
Qed.

Lemma item_trimmed line i :
  i < length (pop_trailing_empty (split TAB line)) →
  item (pop_trailing_empty (split TAB line)) (Some i) = inr (Spec.field i line).
Proof.
  intros Hlen. unfold item, Spec.field.
  rewrite (nth_error_nth_default _ _ Hlen). by rewrite nth_pop_trailing_empty.
Qed.

(** The body of the loop for a row inside a block with a header. *)
Lemma data_row_result st ds genes si ci line :
  let parts := pop_trailing_empty (split TAB line) in
  (if (length parts <? si `max` ci + 1)%nat
   then mret st
   else
     core_val ← item parts (Some ci);
     if String.eqb (lower (strip core_val)) "yes" then
       sym ← item parts (Some si);
       let symbol := strip sym in
       if truthy symbol then
         mret (add_symbol st ds genes symbol)
       else mret st
     else mret st)
  = (inr (if Spec.contributes si ci line
          then add_symbol st ds genes (Spec.symbol_of si line)
          else st) : result state).
Proof.
  intros parts. unfold Spec.contributes.
  destruct (Nat.ltb_spec (length parts) (si `max` ci + 1)) as [Hshort|Hlong].
  - assert (length parts ≤ ci ∨ length parts ≤ si)%nat as [Hc|Hs] by lia.
    + by rewrite (flagged_empty_field _ _ (field_beyond_trimmed _ _ Hc)).
    + rewrite (symbol_empty_field _ _ (field_beyond_trimmed _ _ Hs)).
      by rewrite andb_false_r.
  - subst parts. rewrite !item_trimmed by lia. simpl.
    unfold Spec.flagged, Spec.symbol_of.
    destruct (String.eqb (lower (strip (Spec.field ci line))) "yes"); [|done].
    simpl. by destruct (truthy (strip (Spec.field si line))).
Qed.

Lemma step_cases h st raw_line :
  wf st → step_case h st (rstrip_nl raw_line) (step h st raw_line).
Proof.
  intros [Hkeys Hcur Hhdr]. unfold step. set (line := rstrip_nl raw_line).
  destruct (truthy (strip line)) eqn:Hblank; simpl.
  2: { apply case_blank. unfold Spec.is_blank. by rewrite Hblank. }
  assert (Spec.is_blank line = false) as Hb
    by (unfold Spec.is_blank; by rewrite Hblank).
  destruct (negb (contains TAB line) && startswith (strip line) "GSE") eqn:Hds.
  { by apply case_dataset. }
  destruct (header_cols st) as [cols|] eqn:Hh.
  - rewrite bool_decide_false by done. simpl.
    destruct (current_dataset st) as [ds|] eqn:Hc.
    + destruct Hhdr as [[si Hsi] [ci Hci]]; [by eexists|].
      destruct (Hcur ds eq_refl) as [genes Hg].
      rewrite Hsi, Hci, Hg. simpl.
      pose proof (data_row_result st ds genes si ci line) as Hres.
      simpl in Hres. unfold add_symbol in Hres at 1.
      rewrite Hh, Hc, Hsi, Hci in Hres. rewrite Hres.
      by eapply case_data.
    + apply case_outside; [done|done|congruence|by left].
  - rewrite bool_decide_true by done. simpl.
    destruct (startswith line header_marker) eqn:Hm.
    + unfold index_or_raise.
      destruct (index SYMBOL (header_columns line)) as [si|] eqn:Hsi; simpl.
      * destruct (index CORE_ENRICHMENT (header_columns line)) as [ci|] eqn:Hci; simpl.
        -- apply case_header; auto. unfold Spec.locate. by rewrite Hsi, Hci.
        -- apply case_header_missing; auto.
           unfold Spec.missing_column. by rewrite Hsi, Hci.
      * apply case_header_missing; auto.
        unfold Spec.missing_column. by rewrite Hsi.
    + assert (match current_dataset st with
              | Some _ | _ => (mret st : result state) end = inr st) as ->
        by (by destruct (current_dataset st)).
      apply case_outside; [done|done|done|by right].
Qed.

End step_facts.

(** ** The loop invariant, and the loop against the specification's cursor *)

Section loop_facts.
Import PyStr PyList PyDict Parser Loop.

Lemma elem_of_iff_get {V} (d : dict V) k v :
  NoDup (keys d) → (k, v) ∈ d ↔ get k d = Some v.
Proof. intros Hd. split; [by apply elem_of_get|apply get_Some_elem_of]. Qed.

Lemma member_nil ds g : ¬ member [] ds g.
Proof. intros (genes & []%elem_of_nil & _). Qed.

Lemma member_setdefault d ds0 ds g :
  member (setdefault ds0 ∅ d) ds g ↔ member d ds g.
Proof.
  unfold setdefault. destruct (get ds0 d); [done|]. unfold member.
  split; intros (genes & Hin & Hg); exists genes; (split; [|done]).
  - apply elem_of_app in Hin as [Hin|Hin]; [done|].
    apply list_elem_of_singleton in Hin as [= -> ->]. set_solver.
  - apply elem_of_app. by left.
Qed.

Lemma member_set d ds0 genes sym ds g :
  NoDup (keys d) → get ds0 d = Some genes →
  member (set ds0 (genes ∪ {[sym]}) d) ds g
  ↔ member d ds g ∨ (ds, g) = (ds0, sym).
Proof.
  intros Hd Hget.
  assert (NoDup (keys (set ds0 (genes ∪ {[sym]}) d))) as Hd'
    by (by rewrite keys_set_present by eauto).
  unfold member. split.
  - intros (G & Hin & Hg). apply elem_of_iff_get in Hin; [|done].
    rewrite get_set in Hin. case_decide as Heq.
    + simplify_eq. apply elem_of_union in Hg as [Hg|Hg].
      * left. exists genes. split; [by apply get_Some_elem_of|done].
      * right. apply elem_of_singleton in Hg. by subst.
    + left. exists G. split; [by apply get_Some_elem_of|done].
  - intros [(G & Hin & Hg)|[= -> ->]].
    + apply elem_of_iff_get in Hin; [|done].
      destruct (decide (ds = ds0)) as [->|Hne].
      * exists (genes ∪ {[sym]}). split.
        -- apply elem_of_iff_get; [done|]. rewrite get_set. by case_decide.
        -- simplify_eq. set_solver.
      * exists G. split; [|done].
        apply elem_of_iff_get; [done|]. rewrite get_set. by case_decide.
    + exists (genes ∪ {[sym]}). split; [|set_solver].
      apply elem_of_iff_get; [done|]. rewrite get_set. by case_decide.
Qed.

Lemma wf_init : wf init.
Proof. split; simpl; [apply NoDup_nil_2|done|by intros []]. Qed.

Lemma wf_open_block st ds : wf st → wf (open_block st ds).
Proof.
  intros [Hk Hc Hh]. split; simpl.
  - by apply NoDup_keys_setdefault.
  - intros ? [= <-]. rewrite get_setdefault.
    destruct (get ds (datasets_to_genes st)); [by eexists|].
    rewrite decide_True by done. by eexists.
  - by intros [].
Qed.

Lemma wf_set_header st cols si ci : wf st → wf (set_header st cols si ci).
Proof. intros [Hk Hc Hh]. split; simpl; [done|done|]. intros _. split; by eexists. Qed.

Lemma wf_add_symbol st ds genes sym :
  wf st → get ds (datasets_to_genes st) = Some genes →
  wf (add_symbol st ds genes sym).
Proof.
  intros [Hk Hc Hh] Hg. split; simpl; [|intros ds' Hds'|done].
  - by rewrite keys_set_present by eauto.
  - rewrite get_set. case_decide; [by eexists|by apply Hc].
Qed.

Lemma step_wf h st raw_line st' :
  wf st → step h st raw_line = inr st' → wf st'.
Proof.
  intros Hwf Hstep. pose proof (step_cases h st raw_line Hwf) as Hcase.
  rewrite Hstep in Hcase. inversion Hcase; subst; auto using wf_open_block, wf_set_header.
  destruct (Spec.contributes si ci _); auto using wf_add_symbol.
Qed.

(** One iteration refines one move of the specification's cursor. *)
Lemma step_sim h st raw_line st' :
  wf st → step h st raw_line = inr st' →
  ∃ out,
    Spec.advance (cursor_of st) raw_line = (cursor_of st', out)
    ∧ ∀ ds g, member (datasets_to_genes st') ds g
              ↔ member (datasets_to_genes st) ds g ∨ (ds, g) ∈ out.
Proof.
  intros Hwf Hstep. pose proof (step_cases h st raw_line Hwf) as Hcase.
  rewrite Hstep in Hcase. unfold Spec.advance.
  inversion Hcase as
    [Hb|Hb Hd|si ci Hb Hd Hh Hm Hl|col Hb Hd Hh Hm Hl|Hb Hd Hm Ho
    |ds cols si ci genes Hb Hd Hc Hh Hsi Hci Hg]; subst; rewrite Hb.
  - exists []. split; [done|]. set_solver.
  - rewrite Hd. exists []. split; [done|]. intros ds g. simpl.
    rewrite member_setdefault. set_solver.
  - rewrite Hd. unfold cursor_of. rewrite Hh. simpl. rewrite Hm, Hl.
    exists []. split; [done|]. set_solver.
  - rewrite Hd. exists []. split; [|set_solver].
    unfold cursor_of. simpl.
    destruct (header_cols st') as [cols|] eqn:Hh.
    + destruct Ho as [Hc|?]; [|done]. rewrite Hc.
      destruct (wf_header _ Hwf) as [[si Hsi] [ci Hci]]; [by rewrite Hh|].
      by rewrite Hsi, Hci.
    + by rewrite (Hm eq_refl).
  - rewrite Hd. unfold cursor_of at 1 2. rewrite Hh, Hsi, Hci, Hc. simpl.
    destruct (Spec.contributes si ci (rstrip_nl raw_line)) eqn:Hcontrib.
    + eexists. split.
      { reflexivity. }
      intros ds' g. simpl. rewrite member_set; [|apply Hwf|done].
      by rewrite list_elem_of_singleton.
    + eexists. split.
      { reflexivity. }
      set_solver.
Qed.

Lemma scan_app h st l1 l2 :
  scan h st (l1 ++ l2) = (st' ← scan h st l1; scan h st' l2).
Proof.
  revert st. induction l1 as [|x l1 IH]; intros st; simpl; [done|].
  destruct (step h st x); simpl; [done|]. apply IH.
Qed.

Lemma scan_wf h lines st st' :
  wf st → scan h st lines = inr st' → wf st'.
Proof.
  revert st. induction lines as [|x r IH]; intros st Hwf; simpl.
  - by intros [= <-].
  - destruct (step h st x) as [|st1] eqn:Hs; simpl; [done|].
    apply IH. by eapply step_wf.
Qed.

Lemma scan_sim h lines st st' :
  wf st → scan h st lines = inr st' →
  ∀ ds g, member (datasets_to_genes st') ds g
          ↔ member (datasets_to_genes st) ds g
            ∨ (ds, g) ∈ Spec.flagged_pairs (cursor_of st) lines.
Proof.
  revert st. induction lines as [|x r IH]; intros st Hwf; simpl.
  - intros [= <-] ds g. set_solver.
  - destruct (step h st x) as [|st1] eqn:Hs; simpl; [done|]. intros Hscan ds g.
    destruct (step_sim h st x st1 Hwf Hs) as (out & Hadv & Hmem).
    rewrite Hadv. rewrite (IH st1 (step_wf _ _ _ _ Hwf Hs) Hscan), Hmem.
    rewrite elem_of_app. tauto.
Qed.

Lemma NoDup_keys_drop_empty d : NoDup (keys d) → NoDup (keys (drop_empty d)).
Proof.
  unfold keys, drop_empty. intros Hd.
  refine (sublist_NoDup _ _ Hd _). apply fmap_sublist, sublist_filter.
Qed.

Lemma member_drop_empty d ds g : member (drop_empty d) ds g ↔ member d ds g.
Proof.
  unfold member, drop_empty. split; intros (genes & Hin & Hg); exists genes.
  - apply list_elem_of_filter in Hin as [_ Hin]. done.
  - split; [|done]. apply list_elem_of_filter. split; [|done]. simpl. set_solver.
Qed.

Lemma drop_empty_nonempty d ds genes : (ds, genes) ∈ drop_empty d → genes ≠ ∅.
Proof. unfold drop_empty. by intros [? _]%list_elem_of_filter. Qed.

(** What the loop and the final filter return, for either handler. *)
Lemma scan_result h lines st :
  scan h init lines = inr st →
  let d := drop_empty (datasets_to_genes st) in
  NoDup (keys d)
  ∧ (∀ ds genes, (ds, genes) ∈ d → genes ≠ ∅)
  ∧ (∀ ds g, member d ds g ↔ (ds, g) ∈ Spec.flagged_pairs Spec.start lines).
Proof.
  intros Hscan d. split_and!.
  - apply NoDup_keys_drop_empty. eapply (scan_wf h lines init st); [apply wf_init|done].
  - apply drop_empty_nonempty.
  - intros ds g. unfold d. rewrite member_drop_empty.
    rewrite (scan_sim h lines init st wf_init Hscan).
    split; [intros [[]%member_nil|]; done|by right].
Qed.

Lemma parse_lines_inv lines d :
  Intersections.parse_lines lines = inr d →
  ∃ st, scan Intersections.no_handler init lines = inr st
        ∧ d = drop_empty (datasets_to_genes st).
Proof.
  unfold Intersections.parse_lines.
  destruct (scan _ _ _) as [|st]; simpl; [done|]. intros [= <-]. by exists st.
Qed.

Lemma parse_lines_spec lines d :
  Intersections.parse_lines lines = inr d →
  NoDup (keys d)
  ∧ (∀ ds genes, (ds, genes) ∈ d → genes ≠ ∅)
  ∧ (∀ ds g, member d ds g ↔ (ds, g) ∈ Spec.flagged_pairs Spec.start lines).
Proof.
  intros (st & Hscan & ->)%parse_lines_inv. by apply (scan_result _ _ _ Hscan).
Qed.

End loop_facts.

(** ** The aggregator: [invert_to_gene_counts] *)

Section invert_facts.
Import PyStr PyList PyDict Intersections Agg.

Lemma get_add_dataset ds acc g g' :
  get g' (add_dataset ds acc g) =
    if decide (g' = g) then Some (datasets_at acc g ∪ {[ds]}) else get g' acc.
Proof.
  unfold add_dataset, datasets_at. destruct (get g acc) as [s|] eqn:E; simpl.
  - by rewrite get_set.
  - rewrite get_app. simpl. case_decide as Hg.
    + subst. rewrite E, String.eqb_refl. f_equal. set_solver.
    + destruct (get g' acc); [done|].
      destruct (String.eqb_spec g g'); congruence.
Qed.

Lemma datasets_at_add_dataset ds acc g g' :
  datasets_at (add_dataset ds acc g) g' =
    if decide (g' = g) then datasets_at acc g ∪ {[ds]} else datasets_at acc g'.
Proof.
  unfold datasets_at at 1. rewrite get_add_dataset. by case_decide.
Qed.

Lemma NoDup_keys_add_dataset ds acc g :
  NoDup (keys acc) → NoDup (keys (add_dataset ds acc g)).
Proof.
  intros Hk. unfold add_dataset. destruct (get g acc) eqn:E.
  - by rewrite keys_set_present by eauto.
  - by apply NoDup_keys_snoc.
Qed.

Lemma all_nonempty_add_dataset ds acc g :
  all_nonempty acc → all_nonempty (add_dataset ds acc g).
Proof.
  intros Hne g' S. rewrite get_add_dataset. case_decide.
  - intros [= <-]. set_solver.
  - apply Hne.
Qed.

(** the inner loop, [for g in genes] *)
Lemma inner_loop ds gs acc :
  let acc' := fold_left (add_dataset ds) gs acc in
  (NoDup (keys acc) → NoDup (keys acc'))
  ∧ (all_nonempty acc → all_nonempty acc')
  ∧ ∀ g, datasets_at acc' g =
         if decide (g ∈ gs) then datasets_at acc g ∪ {[ds]} else datasets_at acc g.
Proof.
  revert acc. induction gs as [|g0 gs IH]; intros acc; cbn [fold_left].
  - split_and!; [done..|]. intros g. rewrite decide_False; [done|]. apply not_elem_of_nil.
  - destruct (IH (add_dataset ds acc g0)) as (IH1 & IH2 & IH3). split_and!.
    + intros H. by apply IH1, NoDup_keys_add_dataset.
    + intros H. by apply IH2, all_nonempty_add_dataset.
    + intros g. rewrite IH3, !datasets_at_add_dataset.
      destruct (decide (g = g0)) as [->|Hne].
      * rewrite (decide_True (P:=g0 ∈ g0 :: gs)) by left.
        case_decide; [set_solver|done].
      * destruct (decide (g ∈ gs)) as [Hin|Hnin].
        -- rewrite decide_True by (by right). done.
        -- rewrite decide_False; [done|]. by intros [?|?]%elem_of_cons.
Qed.

Lemma holders_cons ds genes d g :
  holders ((ds, genes) :: d) g =
    (if decide (g ∈ genes) then {[ds]} else ∅) ∪ holders d g.
Proof.
  unfold holders, Spec.datasets_holding. rewrite filter_cons. simpl.
  case_decide; [|set_solver]. rewrite fmap_cons. simpl. set_solver.
Qed.

(** the outer loop, [for ds, genes in datasets_to_genes.items()] *)
Lemma outer_loop o d acc :
  let acc' :=
    fold_left
      (λ acc '(ds, genes),
         fold_left (add_dataset ds) (set_iter o (GenesOf ds) genes) acc) d acc in
  (NoDup (keys acc) → NoDup (keys acc'))
  ∧ (all_nonempty acc → all_nonempty acc')
  ∧ ∀ g, datasets_at acc' g = datasets_at acc g ∪ holders d g.
Proof.
  revert acc. induction d as [|[ds genes] d IH]; intros acc; cbn [fold_left].
  - split_and!; [done..|]. intros g. unfold holders. simpl. set_solver.
  - pose proof (inner_loop ds (set_iter o (GenesOf ds) genes) acc) as (I1 & I2 & I3).
    simpl in I1, I2, I3.
    destruct (IH (fold_left (add_dataset ds) (set_iter o (GenesOf ds) genes) acc))
      as (IH1 & IH2 & IH3).
    split_and!; [by auto..|].
    intros g. rewrite IH3, I3, holders_cons.
    assert (g ∈ set_iter o (GenesOf ds) genes ↔ g ∈ genes) as Hiff.
    { rewrite (set_iter_perm o). apply elem_of_elements. }
    destruct (decide (g ∈ genes)) as [Hin|Hnin].
    + rewrite decide_True by (by apply Hiff). set_solver.
    + rewrite decide_False by (by rewrite Hiff). set_solver.
Qed.

(** The index the aggregator builds, whatever the iteration order: one
    entry per gene held by some dataset, with exactly the holders. *)
Lemma invert_spec o d :
  NoDup (keys (invert_to_gene_counts o d))
  ∧ ∀ g S, (g, S) ∈ invert_to_gene_counts o d ↔ S = holders d g ∧ S ≠ ∅.
Proof.
  unfold invert_to_gene_counts.
  pose proof (outer_loop o d []) as (H1 & H2 & H3). simpl in H1, H2, H3.
  set (acc' := fold_left _ d []) in *.
  assert (NoDup (keys acc')) as Hk by (apply H1, NoDup_nil_2).
  assert (all_nonempty acc') as Hne by (by apply H2).
  split; [done|]. intros g S. rewrite elem_of_iff_get by done.
  specialize (H3 g). unfold datasets_at in H3. simpl in H3.
  rewrite (left_id_L ∅ (∪)) in H3. split.
  - intros Hg. split; [|by eapply Hne]. by rewrite Hg in H3.
  - intros [-> Hn]. destruct (get g acc'); simpl in H3; [by subst|]. congruence.
Qed.

Lemma holders_subseteq d g : holders d g ⊆ list_to_set (keys d).
Proof.
  unfold holders, Spec.datasets_holding, keys. intros x.
  rewrite !elem_of_list_to_set, !list_elem_of_fmap.
  intros (kv & -> & Hin%list_elem_of_filter). exists kv. by destruct Hin.
Qed.

Lemma NoDup_datasets_holding d g : NoDup (keys d) → NoDup (Spec.datasets_holding d g).
Proof.
  intros Hd. refine (sublist_NoDup _ _ Hd _). apply fmap_sublist, sublist_filter.
Qed.

Lemma size_holders d g :
  NoDup (keys d) → size (holders d g) = length (Spec.datasets_holding d g).
Proof. intros Hd. by apply size_list_to_set, NoDup_datasets_holding. Qed.

Lemma elem_of_holders d g ds : ds ∈ holders d g ↔ Loop.member d ds g.
Proof.
  unfold holders, Spec.datasets_holding, Loop.member.
  rewrite elem_of_list_to_set, list_elem_of_fmap. split.
  - intros ([k S] & -> & [HS Hin]%list_elem_of_filter). by exists S.
  - intros (S & Hin & Hg). exists (ds, S). split; [done|].
    by apply list_elem_of_filter.
Qed.

Lemma invert_keys o d g :
  g ∈ keys (invert_to_gene_counts o d) ↔ ∃ ds, Loop.member d ds g.
Proof.
  destruct (invert_spec o d) as [_ Hspec]. unfold keys.
  rewrite list_elem_of_fmap. split.
  - intros ([g' S] & -> & [-> HS]%Hspec). simpl.
    apply set_choose_L in HS as [ds Hds]. exists ds. by apply elem_of_holders.
  - intros [ds Hds]. exists (g, holders d g). split; [done|]. apply Hspec.
    split; [done|]. apply elem_of_holders in Hds. set_solver.
Qed.

End invert_facts.

(** ** The reporter: sort order, rows, and the max-only view *)

Section report_facts.
Import PyStr PyList PyDict Intersections.

Lemma key_leb_spec a b :
  key_leb a b = true
  ↔ (a.1 < b.1)%Z ∨ (a.1 = b.1 ∧ String.leb a.2 b.2 = true).
Proof.
  unfold key_leb. rewrite orb_true_iff, andb_true_iff, Z.ltb_lt, Z.eqb_eq. done.
Qed.

Lemma row_leb_total a b : row_leb a b = true ∨ row_leb b a = true.
Proof.
  unfold row_leb. rewrite !key_leb_spec.
  destruct (string_leb_total (row_key a).2 (row_key b).2);
    destruct (Z.lt_total (row_key a).1 (row_key b).1) as [?|[?|?]]; auto.
Qed.

Lemma row_leb_trans a b c :
  row_leb a b = true → row_leb b c = true → row_leb a c = true.
Proof.
  unfold row_leb. rewrite !key_leb_spec.
  intros [?|[? Hab]] [?|[? Hbc]]; [left; lia..|].
  right. split; [lia|]. by eapply string_leb_trans.
Qed.

Lemma row_leb_antisym a b :
  row_leb a b = true → row_leb b a = true →
  gene a = gene b ∧ count a = count b.
Proof.
  unfold row_leb. rewrite !key_leb_spec. unfold row_key. simpl.
  intros [?|[? Hab]] [?|[? Hba]]; try lia.
  split; [by apply String.leb_antisym|lia].
Qed.

Lemma row_leb_before a b : row_leb a b = true → Spec.row_before a b.
Proof.
  unfold row_leb. rewrite key_leb_spec. unfold row_key, Spec.row_before. simpl.
  intros [?|[? Hab]]; [left; lia|right]. split; [lia|].
  unfold String.le. by rewrite Hab.
Qed.

Lemma StronglySorted_weaken {A} (R1 R2 : relation A) l :
  (∀ a b, R1 a b → R2 a b) → StronglySorted R1 l → StronglySorted R2 l.
Proof.
  intros HR. induction 1 as [|x r Hr IH Hx]; constructor; [done|].
  eapply Forall_impl; [exact Hx|]. auto.
Qed.

Lemma sorted_rows_Permutation o g2d :
  sorted_rows o g2d ≡ₚ map (make_row o) g2d.
Proof. apply sort_Permutation. Qed.

Lemma sorted_rows_sorted o g2d :
  StronglySorted Spec.row_before (sorted_rows o g2d).
Proof.
  apply (StronglySorted_weaken (le_of row_leb)); [apply row_leb_before|].
  apply sort_StronglySorted; [apply row_leb_total|apply row_leb_trans].
Qed.

Lemma elem_of_sorted_rows o g2d r :
  r ∈ sorted_rows o g2d ↔ ∃ kv, kv ∈ g2d ∧ r = make_row o kv.
Proof.
  rewrite sorted_rows_Permutation. change (map (make_row o) g2d) with (make_row o <$> g2d).
  rewrite list_elem_of_fmap. naive_solver.
Qed.

Lemma sorted_rows_length o g2d : length (sorted_rows o g2d) = length g2d.
Proof. by rewrite sorted_rows_Permutation, length_map. Qed.

Lemma ds_list_Permutation o kv : ds_list (make_row o kv) ≡ₚ elements kv.2.
Proof. simpl. by rewrite sort_Permutation, set_iter_perm. Qed.

(** A row does not depend on the order its dataset set is iterated in. *)
Lemma make_row_order_irrel o1 o2 kv : make_row o1 kv = make_row o2 kv.
Proof.
  unfold make_row. f_equal. apply sorted_set_order_irrel.
  by rewrite !set_iter_perm.
Qed.

(** Neither do the sorted rows, nor do they depend on the order of the
    dictionary they are made from. *)
Lemma sorted_rows_order_irrel o1 o2 l1 l2 :
  NoDup (keys l1) → l1 ≡ₚ l2 → sorted_rows o1 l1 = sorted_rows o2 l2.
Proof.
  intros Hk Hp. unfold sorted_rows.
  rewrite (map_ext _ _ (make_row_order_irrel o2 o1)).
  apply sort_Permutation_eq; [apply row_leb_total|apply row_leb_trans| |].
  - by apply Permutation_map.
  - intros a b Ha Hb Hab Hba.
    change (map (make_row o1) l1) with (make_row o1 <$> l1) in Ha, Hb.
    apply list_elem_of_fmap in Ha as ([ka Sa] & -> & Ha).
    apply list_elem_of_fmap in Hb as ([kb Sb] & -> & Hb).
    destruct (row_leb_antisym _ _ Hab Hba) as [Hg _]. simpl in Hg. subst kb.
    apply elem_of_iff_get in Ha, Hb; [|done..]. congruence.
Qed.

Lemma largest_count_ge rows r :
  r ∈ rows → count r ≤ Spec.largest_count rows.
Proof.
  unfold Spec.largest_count. induction 1 as [|?? r' _ IH]; simpl; lia.
Qed.

Lemma largest_count_le rows n :
  Forall (λ r, count r ≤ n) rows → Spec.largest_count rows ≤ n.
Proof.
  unfold Spec.largest_count. induction 1; simpl; lia.
Qed.

Lemma row_before_count a b : Spec.row_before a b → count b ≤ count a.
Proof. unfold Spec.row_before. lia. Qed.

(** The count of the first row is the largest count. *)
Lemma max_count_largest rows :
  StronglySorted Spec.row_before rows → max_count rows = Spec.largest_count rows.
Proof.
  destruct 1 as [|x r Hr Hx]; [done|]. simpl.
  assert (Spec.largest_count r ≤ count x) as Hle.
  { apply largest_count_le. eapply Forall_impl; [exact Hx|].
    intros y. apply row_before_count. }
  unfold Spec.largest_count in *. simpl. lia.
Qed.

(** On rows sorted by descending count, keeping the rows of count [m]
    (no row has more) keeps a prefix. *)
Lemma filter_count_take_while m rows :
  StronglySorted Spec.row_before rows →
  Forall (λ r, count r ≤ m) rows →
  filter (λ r, count r = m) rows = take_while (λ r, (count r =? m)%nat) rows.
Proof.
  induction 1 as [|x r Hr IH Hx]; intros Hm; [done|].
  apply Forall_cons in Hm as [Hxm Hrm]. rewrite filter_cons. simpl.
  destruct (Nat.eqb_spec (count x) m) as [Heq|Hne].
  - rewrite decide_True by done. f_equal. by apply IH.
  - rewrite decide_False by done.
    assert (Forall (λ y, count y ≠ m) r) as Hnone.
    { eapply Forall_impl; [exact Hx|]. intros y Hy%row_before_count. lia. }
    clear -Hnone. induction Hnone as [|y r Hy _ IH]; [done|].
    by rewrite filter_cons, decide_False.
Qed.

Lemma max_only_prefix rows :
  StronglySorted Spec.row_before rows →
  max_only rows
  = take_while (λ r, (count r =? Spec.largest_count rows)%nat) rows.
Proof.
  intros Hs. unfold max_only. rewrite (max_count_largest _ Hs).
  apply filter_count_take_while; [done|].
  apply Forall_forall. intros r. apply largest_count_ge.
Qed.

End report_facts.

(** ** The entry point *)

Section main_facts.
Import PyStr PyList PyDict Parser Intersections.

Lemma main_success_inv o text full max :
  main o text = Exit 0 [full; max] →
  ∃ d, parse_doxset_rinn_tsv text = inr d
       ∧ d ≠ []
       ∧ full = write_file full_name
                  (sorted_rows o (invert_to_gene_counts o d))
       ∧ max = write_file max_name
                 (max_only (sorted_rows o (invert_to_gene_counts o d))).
Proof.
  unfold main. destruct (parse_doxset_rinn_tsv text) as [e|[|kv d]]; [done..|].
  unfold write_csvs. intros [= <- <-]. by eexists.
Qed.

Lemma parse_empty_iff lines d :
  parse_lines lines = inr d →
  d = [] ↔ Spec.flagged_pairs Spec.start lines = [].
Proof.
  intros (_ & Hne & Hmem)%parse_lines_spec. split.
  - intros ->. destruct (Spec.flagged_pairs Spec.start lines) as [|[ds g] q]; [done|].
    destruct (proj2 (Hmem ds g)) as (? & []%elem_of_nil & _). left.
  - intros Hq. destruct d as [|[ds genes] d]; [done|].
    assert (genes ≠ ∅) as [g Hg]%set_choose_L by (eapply Hne; left).
    assert ((ds, g) ∈ Spec.flagged_pairs Spec.start lines) as Hin.
    { apply Hmem. exists genes. split; [left|done]. }
    rewrite Hq in Hin. by apply elem_of_nil in Hin.
Qed.

Lemma step_handler_irrel h1 h2 st raw_line st' :
  step h1 st raw_line = inr st' → step h2 st raw_line = inr st'.
Proof.
  unfold step.
  destruct (negb (truthy (strip (rstrip_nl raw_line)))); [done|].
  destruct (negb (contains TAB (rstrip_nl raw_line)) && _); [done|].
  destruct (bool_decide (header_cols st = None) && _); [|done].
  unfold index_or_raise.
  destruct (index SYMBOL _); simpl; [|done].
  destruct (index CORE_ENRICHMENT _); simpl; done.
Qed.

Lemma scan_handler_irrel h1 h2 lines st st' :
  scan h1 st lines = inr st' → scan h2 st lines = inr st'.
Proof.
  revert st. induction lines as [|x r IH]; intros st; simpl; [done|].
  destruct (step h1 st x) as [|st1] eqn:Hs; simpl; [done|].
  rewrite (step_handler_irrel h1 h2 _ _ _ Hs). simpl. apply IH.
Qed.

End main_facts.

(** ** Worked examples *)

Section worked_examples.
Import PyStr PyList PyDict Parser Intersections.

(** The example of the specification's section 8: B first, then A and C,
    and only B in the max-only file. *)
Example two_blocks_output :
  main default_order Samples.two_blocks
  = Exit 0
      [write_file full_name
         [Row "B" 2 ["GSE1"; "GSE2"]; Row "A" 1 ["GSE1"]; Row "C" 1 ["GSE2"]];
       write_file max_name [Row "B" 2 ["GSE1"; "GSE2"]]].
Proof. vm_compute. reflexivity. Qed.

Example two_blocks_records :
  records (write_file full_name
             [Row "B" 2 ["GSE1"; "GSE2"]; Row "A" 1 ["GSE1"]; Row "C" 1 ["GSE2"]])
  = [["SYMBOL"; "datasets_count"; "datasets"];
     ["B"; "2"; "GSE1;GSE2"]; ["A"; "1"; "GSE1"]; ["C"; "1"; "GSE2"]].
Proof. reflexivity. Qed.

(** The other iteration order gives the same files. *)
Example two_blocks_output_reverse :
  main reverse_order Samples.two_blocks = main default_order Samples.two_blocks.
Proof. vm_compute. reflexivity. Qed.

(** GSE1 opens two blocks: its gene set collects both. *)
Example repeated_id_parsed :
  parse_doxset_rinn_tsv Samples.repeated_id
  = inr [("GSE1", {["A"]} ∪ {["C"]}); ("GSE2", {["B"]})].
Proof. vm_compute. reflexivity. Qed.

Example nothing_flagged_exit : main default_order Samples.nothing_flagged = Exit 1 [].
Proof. vm_compute. reflexivity. Qed.

Example short_row_parsed :
  parse_doxset_rinn_tsv Samples.short_row = inr [("GSE1", {["B"]})].
Proof. vm_compute. reflexivity. Qed.

(** A field with the delimiter is quoted; a semicolon is not special. *)
Example csv_field_comma :
  csv_field "a,b" = String DQUOTE ("a,b" ++ String DQUOTE "").
Proof. reflexivity. Qed.

Example csv_field_semicolon : csv_field "GSE1;GSE2" = "GSE1;GSE2".
Proof. reflexivity. Qed.

End worked_examples.

(** * The properties of the specification *)

Section claims.
Import PyStr PyList PyDict Parser Intersections.

(** C1, as the code has it.  In every data record of the full output, the
    [datasets_count] field is the number of dataset identifiers of the
    parsed mapping whose gene set holds the record's symbol; and when no
    parsed dataset identifier holds a semicolon, it is also the number of
    semicolon-separated tokens of the [datasets] field. *)
Theorem datasets_count_field_correct o text full max record :
  main o text = Exit 0 [full; max] →
  record ∈ tail (records full) →
  ∃ d g n datasets,
    parse_doxset_rinn_tsv text = inr d
    ∧ record = [g; str_of_nat n; datasets]
    ∧ n = length (Spec.datasets_holding d g)
    ∧ (Forall (λ ds, contains ";" ds = false) (keys d) →
       Spec.token_count datasets = n).
Proof.
  intros (d & Hparse & _ & -> & _)%main_success_inv Hrec. simpl in Hrec.
  change (map csv_fields ?l) with (csv_fields <$> l) in Hrec.
  apply list_elem_of_fmap in Hrec as (r & -> & Hr).
  apply elem_of_sorted_rows in Hr as ([g S] & Hin & ->).
  destruct (parse_lines_spec _ _ Hparse) as (Hk & _ & _).
  destruct (invert_spec o d) as [_ Hspec].
  apply Hspec in Hin as [-> Hne].
  exists d, g, (size (Agg.holders d g)), (join ";" (ds_list (make_row o (g, Agg.holders d g)))).
  split_and!; [done|done|by apply size_holders|].
  intros Hsemi. unfold Spec.token_count.
  pose proof (ds_list_Permutation o (g, Agg.holders d g)) as Hperm.
  rewrite (split_join ";").
  - by rewrite Hperm.
  - intros Hnil. rewrite Hnil in Hperm. apply Permutation_nil in Hperm.
    by apply elements_empty_inv, leibniz_equiv in Hperm.
  - apply Forall_forall. intros ds Hds. rewrite Hperm in Hds.
    apply elem_of_elements, holders_subseteq, elem_of_list_to_set in Hds.
    by eapply (proj1 (Forall_forall _ _) Hsemi).
Qed.

Lemma datasets_count_field_correct_witness :
  ∃ d g n datasets,
    parse_doxset_rinn_tsv Samples.two_blocks = inr d
    ∧ ["B"; "2"; "GSE1;GSE2"] = [g; str_of_nat n; datasets]
    ∧ n = length (Spec.datasets_holding d g)
    ∧ (Forall (λ ds, contains ";" ds = false) (keys d) →
       Spec.token_count datasets = n).
Proof.
  eapply (datasets_count_field_correct default_order Samples.two_blocks).
  - vm_compute. reflexivity.
  - vm_compute. left.
Defined.

(** C1, as stated, fails: a dataset identifier may hold a semicolon, and
    then the [datasets] field of a gene counted once has two tokens. *)
Lemma semicolon_identifier_breaks_token_count :
  ∃ full max,
    main default_order Samples.semicolon_id = Exit 0 [full; max]
    ∧ tail (records full) = [["A"; "1"; "GSE;1"]]
    ∧ Spec.token_count "GSE;1" = 2.
Proof. do 2 eexists. split; [vm_compute; reflexivity|]. by split. Qed.

(** C2.  The rows of the full output are sorted by descending count, ties
    by ascending gene symbol, and the data rows of the max-only output are
    the longest prefix of the full output's rows whose count is the
    largest count. *)
Theorem full_sorted_and_max_only_prefix o gene_to_datasets :
  let rows := sorted_rows o gene_to_datasets in
  let '(full, max) := write_csvs o gene_to_datasets in
  StronglySorted Spec.row_before rows
  ∧ tail (records full) = map csv_fields rows
  ∧ tail (records max) =
      map csv_fields
        (take_while (λ r, count r =? Spec.largest_count rows) rows).
Proof.
  simpl. pose proof (sorted_rows_sorted o gene_to_datasets) as Hs.
  split_and!; [done|done|]. by rewrite max_only_prefix.
Qed.

(** C3, where the code departs from it.  The header row of GSE1 has an empty
    cell before the two named cells.  The parser numbers the non-empty
    header cells only, while a data row keeps its empty fields, so the row
    of GSE1 whose CORE ENRICHMENT cell reads Yes and whose SYMBOL cell reads
    A is read one cell to the left and not counted: two distinct symbols are
    flagged in the input, and the full output has one data row. *)
Lemma empty_header_cell_loses_flagged_symbol :
  (∃ full max,
     main default_order GapSamples.flagged_under_gap = Exit 0 [full; max]
     ∧ tail (records full) = [["B"; "1"; "GSE2"]])
  ∧ ByName.locate (rstrip_nl GapSamples.header_gap) = Some (2, 3)
  ∧ Spec.locate (header_columns (rstrip_nl GapSamples.header_gap)) = Some (1, 2)
  ∧ ByName.flagged_pairs Spec.start (readlines GapSamples.flagged_under_gap)
    = [("GSE1", "A"); ("GSE2", "B")]
  ∧ size (ByName.flagged_symbols (readlines GapSamples.flagged_under_gap)) = 2.
Proof.
  split_and!; [|reflexivity|reflexivity|vm_compute; reflexivity|vm_compute; reflexivity].
  do 2 eexists. split; [vm_compute; reflexivity|reflexivity].
Qed.

End claims.

Section claims_parser.
Import PyStr PyList PyDict Parser Intersections Loop.

(** C4, where the code departs from it.  Under the same header row a row
    whose CORE ENRICHMENT cell reads No and whose SYMBOL cell reads yes adds
    X, the cell to the left of its SYMBOL cell, to the gene set of GSE1: the
    flag column value is not yes, yet a value is added, and it is not the
    row's symbol value. *)
Lemma empty_header_cell_adds_unflagged_row :
  ByName.locate (rstrip_nl GapSamples.header_gap) = Some (2, 3)
  ∧ Spec.symbol_of 2 (rstrip_nl GapSamples.row_not_flagged) = "yes"
  ∧ strip (Spec.field 3 (rstrip_nl GapSamples.row_not_flagged)) = "No"
  ∧ Spec.flagged 3 (rstrip_nl GapSamples.row_not_flagged) = false
  ∧ scan no_handler init (readlines ("GSE1" ++ Samples.nl ++ GapSamples.header_gap))
    = inr GapSamples.after_gap_header
  ∧ step no_handler GapSamples.after_gap_header GapSamples.row_not_flagged
    = inr (add_symbol GapSamples.after_gap_header "GSE1" ∅ "X")
  ∧ parse_doxset_rinn_tsv GapSamples.not_flagged_under_gap
    = inr [("GSE1", {["X"]})].
Proof.
  split_and!; try reflexivity; vm_compute; reflexivity.
Qed.

End claims_parser.

Section claims_errors.
Import PyStr PyList PyDict Parser Intersections Loop.

Lemma locate_missing_column cols p col :
  Spec.locate cols = Some p → Spec.missing_column cols = Some col → False.
Proof.
  unfold Spec.locate, Spec.missing_column.
  by destruct (index SYMBOL cols), (index CORE_ENRICHMENT cols).
Qed.

Lemma missing_column_name cols col :
  Spec.missing_column cols = Some col → col = SYMBOL ∨ col = CORE_ENRICHMENT.
Proof.
  unfold Spec.missing_column.
  destruct (index SYMBOL cols), (index CORE_ENRICHMENT cols); naive_solver.
Qed.

(** A marker line met while the block has no header, and lacking a
    required column, raises in the column lookup. *)
Lemma header_missing_step h st raw_line col :
  wf st → header_cols st = None →
  Spec.is_header_line (rstrip_nl raw_line) = true →
  Spec.missing_column (header_columns (rstrip_nl raw_line)) = Some col →
  step h st raw_line = inl (h (header_columns (rstrip_nl raw_line)) (ValueError col)).
Proof.
  intros Hwf Hh Hm Hmiss.
  destruct (header_line_shape _ Hm) as [Htruthy Htab].
  pose proof (step_cases h st raw_line Hwf) as Hcase.
  inversion Hcase as
    [Hb'|Hb' Hd'|si ci Hb' Hd' Hh' Hm' Hl|col' Hb' Hd' Hh' Hm' Hl|Hb' Hd' Hm' Ho
    |ds0 cols0 si ci genes Hb' Hd' Hc' Hh' Hsi Hci Hg].
  - unfold Spec.is_blank in Hb'. by rewrite Htruthy in Hb'.
  - unfold Spec.is_dataset_line in Hd'. by rewrite Htab in Hd'.
  - destruct (locate_missing_column _ _ _ Hl Hmiss).
  - congruence.
  - rewrite (Hm' Hh) in Hm. done.
  - congruence.
Qed.

(** C5, as the code has it.  When a line that begins with the header marker
    is reached while the current block has no header yet (the lines before
    it having parsed without error), and its columns lack the symbol or the
    flag column name, the run ends in an exception that nothing catches: in
    the intersections script the [ValueError] of the lookup of the first
    missing column, in the UpSet script a [RuntimeError] whose message
    names both required columns and lists the columns found. *)
Theorem missing_column_is_fatal o pre raw_line post st col :
  let line := rstrip_nl raw_line in
  Spec.is_header_line line = true →
  Spec.missing_column (header_columns line) = Some col →
  scan no_handler init pre = inr st →
  header_cols st = None →
  (col = SYMBOL ∨ col = CORE_ENRICHMENT)
  ∧ parse_lines (pre ++ raw_line :: post) = inl (ValueError col)
  ∧ (∀ text, readlines text = pre ++ raw_line :: post →
             main o text = Raised (ValueError col))
  ∧ Upset.parse_lines (pre ++ raw_line :: post)
    = inl (RuntimeError (Upset.expected_msg (header_columns line))).
Proof.
  intros line Hm Hmiss Hscan Hh.
  assert (wf st) as Hwf by (eapply scan_wf; [apply wf_init|done]).
  assert (parse_lines (pre ++ raw_line :: post) = inl (ValueError col)) as Hparse.
  { unfold parse_lines. rewrite scan_app, Hscan. simpl.
    by rewrite (header_missing_step no_handler st raw_line col). }
  split_and!; [by eapply missing_column_name|done| |].
  - intros text Htext. unfold main, parse_doxset_rinn_tsv. by rewrite Htext, Hparse.
  - unfold Upset.parse_lines.
    rewrite scan_app, (scan_handler_irrel _ Upset.header_handler _ _ _ Hscan). simpl.
    by rewrite (header_missing_step Upset.header_handler st raw_line col).
Qed.

Lemma missing_column_is_fatal_witness :
  main default_order Samples.missing_flag_column
  = Raised (ValueError CORE_ENRICHMENT)
  ∧ Upset.parse_doxset_rinn_tsv Samples.missing_flag_column
    = inl (RuntimeError
             "Expected 'SYMBOL' and 'CORE ENRICHMENT' in header, got: NAME, SYMBOL").
Proof.
  destruct (missing_column_is_fatal default_order
              [("GSE1" ++ Samples.nl)%string]
              ("NAME" ++ Samples.tab ++ "SYMBOL" ++ Samples.nl)%string
              [Samples.data_row "row_0" "A" "Yes"]
              (open_block init "GSE1") CORE_ENRICHMENT)
    as (_ & _ & Hmain & Hupset); [reflexivity..|].
  split; [by apply Hmain|exact Hupset].
Defined.

(** C5, as stated, fails: a line that begins with the header marker and
    lacks the flag column, met inside a block that already has its header,
    is read as a data row, and the run ends normally. *)
Lemma marker_line_inside_block_is_not_fatal :
  (∃ raw_line,
     raw_line ∈ readlines Samples.marker_inside_block
     ∧ Spec.is_header_line (rstrip_nl raw_line) = true
     ∧ Spec.missing_column (header_columns (rstrip_nl raw_line))
       = Some CORE_ENRICHMENT)
  ∧ (∃ full max,
       main default_order Samples.marker_inside_block = Exit 0 [full; max])
  ∧ (∃ d, Upset.parse_doxset_rinn_tsv Samples.marker_inside_block = inr d).
Proof.
  split_and!.
  - exists ("NAME" ++ Samples.tab ++ "SYMBOL" ++ Samples.nl)%string.
    split; [vm_compute; do 2 right; left|by split].
  - do 2 eexists. vm_compute. reflexivity.
  - eexists. vm_compute. reflexivity.
Qed.

(** C6.  For an input that parses, the entry point returns 0 and writes the
    two files when some row is flagged, and returns 1 and writes no file
    when none is. *)
Theorem exit_code_reports_flagged_rows o text d :
  parse_doxset_rinn_tsv text = inr d →
  let flagged := Spec.flagged_pairs Spec.start (readlines text) in
  (flagged ≠ [] →
   ∃ rows, main o text = Exit 0 [write_file full_name rows;
                                 write_file max_name (max_only rows)])
  ∧ (flagged = [] → main o text = Exit 1 []).
Proof.
  intros Hparse flagged.
  pose proof (parse_empty_iff _ _ Hparse) as Hiff. fold flagged in Hiff.
  unfold main. rewrite Hparse. split.
  - intros Hne. destruct d as [|kv d]; [by destruct Hne; apply Hiff|].
    by eexists.
  - intros He. apply Hiff in He. by subst.
Qed.

Lemma exit_code_reports_flagged_rows_witness :
  (∃ rows, main default_order Samples.two_blocks
           = Exit 0 [write_file full_name rows;
                     write_file max_name (max_only rows)])
  ∧ main default_order Samples.nothing_flagged = Exit 1 [].
Proof.
  split.
  - eapply (exit_code_reports_flagged_rows default_order Samples.two_blocks).
    + vm_compute. reflexivity.
    + vm_compute. discriminate.
  - eapply (exit_code_reports_flagged_rows default_order Samples.nothing_flagged).
    + vm_compute. reflexivity.
    + vm_compute. reflexivity.
Defined.

(** C7.  The outcome of a run, with the records and the text of both
    files, is a function of the input text alone: it is the same for any
    two iteration orders of the sets. *)
Theorem output_is_deterministic o1 o2 text : main o1 text = main o2 text.
Proof.
  unfold main. destruct (parse_doxset_rinn_tsv text) as [e|[|kv d]]; [done..|].
  set (d' := kv :: d). unfold write_csvs.
  destruct (invert_spec o1 d') as [Hk1 Hs1], (invert_spec o2 d') as [Hk2 Hs2].
  rewrite (sorted_rows_order_irrel o1 o2
             (invert_to_gene_counts o1 d') (invert_to_gene_counts o2 d')); [done..|].
  apply NoDup_Permutation; [by apply NoDup_keys_NoDup..|].
  intros [g S]. by rewrite Hs1, Hs2.
Qed.

(** C8.  After any prefix that parsed, a line that is not read as a header
    never raises; and a row of a block with a header that is left, once its
    trailing empty fields are dropped, with too few fields to reach both
    column positions leaves the loop variables as they were. *)
Theorem short_rows_are_skipped h pre st raw_line :
  let line := rstrip_nl raw_line in
  let parts := pop_trailing_empty (split TAB line) in
  scan h init pre = inr st →
  header_cols st ≠ None ∨ Spec.is_header_line line = false →
  (∃ st', step h st raw_line = inr st')
  ∧ (Spec.is_blank line = false → Spec.is_dataset_line line = false →
     header_cols st ≠ None →
     length parts < or_zero (symbol_idx st) `max` or_zero (core_idx st) + 1 →
     step h st raw_line = inr st).
Proof.
  intros line parts Hscan Hnot.
  assert (wf st) as Hwf by (eapply scan_wf; [apply wf_init|done]).
  pose proof (step_cases h st raw_line Hwf) as Hcase. fold line in Hcase.
  inversion Hcase as
    [Hb'|Hb' Hd'|si ci Hb' Hd' Hh' Hm' Hl|col' Hb' Hd' Hh' Hm' Hl|Hb' Hd' Hm' Ho
    |ds0 cols0 si ci genes Hb' Hd' Hc' Hh' Hsi Hci Hg].
  - split; [by eexists|congruence].
  - split; [by eexists|congruence].
  - split; [by eexists|congruence].
  - destruct Hnot; congruence.
  - split; [by eexists|done].
  - split; [by eexists|]. intros _ _ _. rewrite Hsi, Hci. simpl. intros Hshort.
    unfold Spec.contributes.
    assert (length parts ≤ ci ∨ length parts ≤ si) as [Hc|Hs] by lia.
    + by rewrite (flagged_empty_field _ _ (field_beyond_trimmed _ _ Hc)).
    + rewrite (symbol_empty_field _ _ (field_beyond_trimmed _ _ Hs)).
      by rewrite andb_false_r.
Qed.

Lemma short_rows_are_skipped_witness :
  (∃ st', step no_handler Samples.in_block
            ("row_0" ++ Samples.tab ++ "A" ++ Samples.nl)%string = inr st')
  ∧ step no_handler Samples.in_block
      ("row_0" ++ Samples.tab ++ "A" ++ Samples.nl)%string
    = inr Samples.in_block.
Proof.
  destruct (short_rows_are_skipped no_handler
              [("GSE1" ++ Samples.nl)%string; Samples.header_row]
              Samples.in_block
              ("row_0" ++ Samples.tab ++ "A" ++ Samples.nl)%string)
    as [H1 H2]; [vm_compute; reflexivity|by left|].
  split; [exact H1|]. apply H2; [reflexivity|reflexivity|done|vm_compute; lia].
Defined.

End claims_errors.

Section claims_invariants.
Import PyStr PyList PyDict Parser Intersections Loop.

(** C9.  After parsing, the iteration of a dataset's gene set meets every
    gene at most once; and after inversion the dataset set of every gene is
    a subset of the parsed dataset identifiers, so it has at most as many
    elements as there are parsed datasets. *)
Theorem gene_sets_deduplicated_and_bounded o text d :
  parse_doxset_rinn_tsv text = inr d →
  (∀ ds genes, (ds, genes) ∈ d → NoDup (set_iter o (GenesOf ds) genes))
  ∧ (∀ g S, (g, S) ∈ invert_to_gene_counts o d →
            S ⊆ list_to_set (keys d) ∧ size S ≤ length d).
Proof.
  intros Hparse. destruct (parse_lines_spec _ _ Hparse) as (Hk & _ & _). split.
  - intros ds genes _. rewrite set_iter_perm. apply NoDup_elements.
  - intros g S [-> _]%(proj2 (invert_spec o d)). split; [apply holders_subseteq|].
    rewrite size_holders by done. unfold Spec.datasets_holding.
    rewrite length_fmap. apply length_filter.
Qed.

Lemma gene_sets_deduplicated_and_bounded_witness :
  (∀ ds genes,
     (ds, genes) ∈ [("GSE1", {["A"]} ∪ {["B"]}); ("GSE2", {["B"]} ∪ {["C"]} : gset string)] →
     NoDup (set_iter default_order (GenesOf ds) genes))
  ∧ (∀ g S,
       (g, S) ∈ invert_to_gene_counts default_order
                  [("GSE1", {["A"]} ∪ {["B"]}); ("GSE2", {["B"]} ∪ {["C"]} : gset string)] →
       S ⊆ list_to_set ["GSE1"; "GSE2"] ∧ size S ≤ 2).
Proof.
  apply (gene_sets_deduplicated_and_bounded default_order Samples.two_blocks).
  vm_compute. reflexivity.
Defined.

(** C10, as the code has it.  A dataset-identifier line whose identifier is
    already a key leaves the dictionary as it is and makes that identifier
    the current block, so the rows that follow add to the gene set already
    stored; the set returned under an identifier holds the symbols flagged
    in all the blocks of that identifier.  The returned mapping has each
    identifier once and the output has one row per gene; and when no parsed
    identifier holds a semicolon, no [datasets] field of the output holds
    the same semicolon-separated token twice. *)
Theorem repeated_identifier_merges o h st raw_line genes lines d :
  let line := rstrip_nl raw_line in
  (Spec.is_blank line = false → Spec.is_dataset_line line = true →
   get (strip line) (datasets_to_genes st) = Some genes →
   ∃ st', step h st raw_line = inr st'
          ∧ datasets_to_genes st' = datasets_to_genes st
          ∧ current_dataset st' = Some (strip line))
  ∧ (parse_lines lines = inr d →
     (∀ ds g, member d ds g ↔ (ds, g) ∈ Spec.flagged_pairs Spec.start lines)
     ∧ NoDup (keys d)
     ∧ NoDup (map gene (sorted_rows o (invert_to_gene_counts o d)))
     ∧ (Forall (λ ds, contains ";" ds = false) (keys d) →
        ∀ r, r ∈ sorted_rows o (invert_to_gene_counts o d) →
             NoDup (split ";" (nth 2 (csv_fields r) "")))).
Proof.
  intros line. split.
  - intros Hb Hd Hg. unfold step. fold line.
    unfold Spec.is_blank in Hb. unfold Spec.is_dataset_line in Hd.
    rewrite Hb, Hd. eexists. split; [done|]. simpl.
    unfold setdefault. by rewrite Hg.
  - intros Hparse. destruct (parse_lines_spec _ _ Hparse) as (Hk & _ & Hmem).
    destruct (invert_spec o d) as [Hki Hspec]. split_and!; [done|done| |].
    + rewrite sorted_rows_Permutation, map_map. simpl. exact Hki.
    + intros Hsemi r ([g S] & Hin & ->)%elem_of_sorted_rows.
      apply Hspec in Hin as [-> Hne].
      pose proof (ds_list_Permutation o (g, Agg.holders d g)) as Hperm.
      change (nth 2 (csv_fields (make_row o (g, Agg.holders d g))) "")
        with (join ";" (ds_list (make_row o (g, Agg.holders d g)))).
      rewrite (split_join ";").
      * rewrite Hperm. apply NoDup_elements.
      * intros Hnil. rewrite Hnil in Hperm. apply Permutation_nil in Hperm.
        by apply elements_empty_inv, leibniz_equiv in Hperm.
      * apply Forall_forall. intros ds Hds. rewrite Hperm in Hds.
        apply elem_of_elements, holders_subseteq, elem_of_list_to_set in Hds.
        by eapply (proj1 (Forall_forall _ _) Hsemi).
Qed.

Lemma repeated_identifier_merges_witness :
  (∃ st', step no_handler Samples.in_block ("GSE1" ++ Samples.nl)%string = inr st'
          ∧ datasets_to_genes st' = datasets_to_genes Samples.in_block
          ∧ current_dataset st' = Some "GSE1")
  ∧ (∀ ds g,
       member [("GSE1", {["A"]} ∪ {["C"]}); ("GSE2", {["B"]} : gset string)] ds g
       ↔ (ds, g) ∈ [("GSE1", "A"); ("GSE2", "B"); ("GSE1", "C")])
  ∧ (∀ r,
       r ∈ sorted_rows default_order
             (invert_to_gene_counts default_order
                [("GSE1", {["A"]} ∪ {["C"]}); ("GSE2", {["B"]} : gset string)]) →
       NoDup (split ";" (nth 2 (csv_fields r) ""))).
Proof.
  destruct (repeated_identifier_merges default_order no_handler
              Samples.in_block ("GSE1" ++ Samples.nl)%string ∅
              (readlines Samples.repeated_id)
              [("GSE1", {["A"]} ∪ {["C"]}); ("GSE2", {["B"]})]) as [H1 H2].
  split_and!.
  - apply H1; reflexivity.
  - apply H2. vm_compute. reflexivity.
  - destruct H2 as (_ & _ & _ & H2); [vm_compute; reflexivity|].
    apply H2. repeat constructor.
Defined.

(** C10, as stated, fails: a dataset identifier may hold semicolons.  GSE1
    opens two blocks and the identifier made of GSE1, a semicolon and GSE1
    opens one, all flagging A: the [datasets] field of A holds the token
    GSE1 three times. *)
Lemma semicolon_identifier_repeats_token :
  ∃ full max,
    main default_order GapSamples.semicolon_repeat = Exit 0 [full; max]
    ∧ tail (records full) = [["A"; "2"; "GSE1;GSE1;GSE1"]]
    ∧ split ";" "GSE1;GSE1;GSE1" = ["GSE1"; "GSE1"; "GSE1"]
    ∧ ¬ NoDup (split ";" "GSE1;GSE1;GSE1").
Proof.
  do 2 eexists. split_and!; [vm_compute; reflexivity|reflexivity|reflexivity|].
  intros [Hnot _]%NoDup_cons. apply Hnot. left.
Qed.

End claims_invariants.

(** ** More facts about the string primitives *)

Section more_string_facts.
Import PyStr PyList.

Lemma contains_lstrip_with c p s :
  contains c (lstrip_with p s) = true → contains c s = true.
Proof.
  induction s as [|a r IH]; simpl; [done|].
  destruct (p a); [|done]. intros H. rewrite (IH H). apply orb_true_r.
Qed.

Lemma contains_rstrip_with c p s :
  contains c (rstrip_with p s) = true → contains c s = true.
Proof.
  induction s as [|a r IH]; simpl; [done|].
  destruct (rstrip_with p r) as [|b r'] eqn:Hr.
  - destruct (p a); simpl; [done|]. rewrite orb_false_r. by intros ->.
  - simpl. intros [->|H]%orb_true_iff; [done|]. simpl in IH.
    rewrite (IH H). apply orb_true_r.
Qed.

Lemma contains_strip c s : contains c s = false → contains c (strip s) = false.
Proof.
  intros Hs. destruct (contains c (strip s)) eqn:E; [|done].
  apply contains_rstrip_with, contains_lstrip_with in E. congruence.
Qed.

Lemma split_elements sep s : Forall (λ x, contains sep x = false) (split sep s).
Proof.
  induction s as [|a r IH]; simpl; [by repeat constructor|].
  destruct (Ascii.eqb a sep) eqn:Ha; [by constructor|].
  destruct (split sep r) as [|h t]; [by repeat constructor; simpl; rewrite Ha|].
  apply Forall_cons in IH as [Hh Ht]. constructor; [|done]. simpl. by rewrite Ha, Hh.
Qed.

Lemma field_no_tab i line : contains TAB (Spec.field i line) = false.
Proof.
  unfold Spec.field. pose proof (split_elements TAB line) as Hall.
  destruct (decide (i < length (split TAB line))) as [Hlt|Hge].
  - rewrite Forall_forall in Hall. apply Hall, list_elem_of_In, nth_In. done.
  - by rewrite nth_overflow by lia.
Qed.

Lemma rstrip_with_idemp p s : rstrip_with p (rstrip_with p s) = rstrip_with p s.
Proof.
  induction s as [|a r IH]; simpl; [done|].
  destruct (rstrip_with p r) as [|b r'] eqn:Hr.
  - destruct (p a) eqn:Ha; simpl; [done|]. by rewrite Ha.
  - change (rstrip_with p (String a (String b r')))
      with (match rstrip_with p (String b r') with
            | EmptyString => if p a then EmptyString else String a EmptyString
            | x => String a x
            end).
    by rewrite IH.
Qed.

Lemma rstrip_with_head p a r :
  p a = false → ∃ r', rstrip_with p (String a r) = String a r'.
Proof.
  intros Ha. simpl. destruct (rstrip_with p r); [rewrite Ha|]; by eexists.
Qed.

Lemma lstrip_with_shape p s :
  lstrip_with p s = EmptyString
  ∨ ∃ a r, lstrip_with p s = String a r ∧ p a = false.
Proof.
  induction s as [|a r IH]; simpl; [by left|].
  destruct (p a) eqn:Ha; [done|]. right. by exists a, r.
Qed.

(** [strip] is idempotent: a stripped string has nothing left to strip. *)
Lemma strip_idemp s : strip (strip s) = strip s.
Proof.
  unfold strip. destruct (lstrip_with_shape isspace s) as [->|(a & r & -> & Ha)]; [done|].
  destruct (rstrip_with_head isspace a r Ha) as [r' Hr]. rewrite Hr.
  simpl lstrip_with. rewrite Ha, <-Hr. apply rstrip_with_idemp.
Qed.

Lemma rstrip_with_snoc p s c :
  p c = true → rstrip_with p (s ++ String c "")%string = rstrip_with p s.
Proof.
  intros Hc. induction s as [|a r IH]; simpl.
  - by rewrite Hc.
  - change ((String a r ++ String c "")%string) with (String a (r ++ String c ""))%string.
    simpl. by rewrite IH.
Qed.

Lemma strip_snoc_space s c : isspace c = true → strip (s ++ String c "")%string = strip s.
Proof.
  intros Hc. unfold strip. induction s as [|a r IH].
  - simpl. by rewrite Hc.
  - change ((String a r ++ String c "")%string) with (String a (r ++ String c ""))%string.
    simpl. destruct (isspace a); [done|].
    change (String a (r ++ String c ""))%string with ((String a r ++ String c "")%string).
    by apply rstrip_with_snoc.
Qed.

Lemma contains_snoc c s : contains c (s ++ String c "")%string = true.
Proof. apply contains_app_r. simpl. by rewrite Ascii.eqb_refl. Qed.

Lemma contains_app_l c s1 s2 :
  contains c s1 = true → contains c (s1 ++ s2)%string = true.
Proof.
  induction s1 as [|a r IH]; simpl; [done|].
  change ((String a r ++ s2)%string) with (String a (r ++ s2))%string. simpl.
  intros [->|H]%orb_true_iff; [done|]. rewrite (IH H). apply orb_true_r.
Qed.

Lemma split_snoc_sep sep s :
  split sep (s ++ String sep "")%string = split sep s ++ [EmptyString].
Proof.
  induction s as [|a r IH].
  - simpl. by rewrite Ascii.eqb_refl.
  - change ((String a r ++ String sep "")%string) with (String a (r ++ String sep ""))%string.
    simpl. rewrite IH. destruct (Ascii.eqb a sep); [done|].
    pose proof (split_nonempty sep r). by destruct (split sep r).
Qed.

Lemma pop_trailing_empty_snoc l :
  pop_trailing_empty (l ++ [EmptyString]) = pop_trailing_empty l.
Proof.
  induction l as [|x r IH]; simpl; [done|]. by rewrite IH.
Qed.

Lemma rstrip_with_id p s :
  (∀ a, p a = true → contains a s = false) → rstrip_with p s = s.
Proof.
  induction s as [|a r IH]; [done|]. intros Hp.
  cbn [rstrip_with]. rewrite IH.
  - destruct r; [|done]. destruct (p a) eqn:Ha; [|done].
    specialize (Hp a Ha). simpl in Hp. by rewrite Ascii.eqb_refl in Hp.
  - intros b Hb. specialize (Hp b Hb). simpl in Hp.
    by apply orb_false_elim in Hp as [_ ?].
Qed.

Lemma rstrip_nl_no_LF s : contains LF s = false → rstrip_nl s = s.
Proof.
  intros Hs. apply rstrip_with_id. by intros a <-%Ascii.eqb_eq.
Qed.

Lemma rstrip_nl_snoc s : rstrip_nl (s ++ String LF "")%string = rstrip_nl s.
Proof. by apply rstrip_with_snoc. Qed.

Lemma readlines_line s rest :
  contains LF s = false →
  readlines (s ++ String LF rest)%string = (s ++ String LF "")%string :: readlines rest.
Proof.
  induction s as [|a r IH]; simpl; [done|].
  intros [Ha Hr]%orb_false_elim.
  change ((String a r ++ String LF rest)%string) with (String a (r ++ String LF rest))%string.
  simpl. rewrite Ha, (IH Hr). done.
Qed.

Lemma readlines_nonempty a r : readlines (String a r) ≠ [].
Proof. simpl. destruct (Ascii.eqb a LF); [done|]. by destruct (readlines r). Qed.

Lemma endswith_nl_cons a b r :
  Concatenate.endswith_nl (String a (String b r)) = Concatenate.endswith_nl (String b r).
Proof. done. Qed.

Lemma readlines_cons a r :
  readlines (String a r) =
    if Ascii.eqb a LF then String a EmptyString :: readlines r
    else match readlines r with
         | [] => [String a EmptyString]
         | l :: ls => String a l :: ls
         end.
Proof. done. Qed.

(** Reading a text whose last line is terminated, followed by more text. *)
Lemma readlines_app_terminated s t :
  Concatenate.endswith_nl s = true →
  readlines (s ++ t)%string = readlines s ++ readlines t.
Proof.
  induction s as [|a r IH]; [done|]. intros Hend.
  change ((String a r ++ t)%string) with (String a (r ++ t))%string.
  destruct r as [|b r].
  - simpl in Hend. simpl. by rewrite Hend.
  - rewrite endswith_nl_cons in Hend. specialize (IH Hend).
    rewrite (readlines_cons a (String b r ++ t)), (readlines_cons a (String b r)), IH.
    destruct (Ascii.eqb a LF); [done|].
    pose proof (readlines_nonempty b r) as Hne.
    by destruct (readlines (String b r)).
Qed.

Lemma endswith_nl_snoc s : Concatenate.endswith_nl (s ++ String LF "")%string = true.
Proof.
  induction s as [|a r IH]; [done|].
  change ((String a r ++ String LF "")%string) with (String a (r ++ String LF ""))%string.
  destruct r as [|b r]; [done|].
  change ((String b r ++ String LF "")%string) with (String b (r ++ String LF ""))%string in *.
  by rewrite endswith_nl_cons.
Qed.

Lemma terminated_ends content : Concatenate.endswith_nl (Blocks.terminated content) = true.
Proof.
  unfold Blocks.terminated. destruct (Concatenate.endswith_nl content) eqn:E.
  - assert (content ++ "" = content)%string as ->; [|done].
    clear. induction content as [|a r IH]; [done|].
    change ((String a r ++ "")%string) with (String a (r ++ ""))%string. by rewrite IH.
  - apply endswith_nl_snoc.
Qed.

End more_string_facts.

(** ** Further properties of the block parser *)

Section parser_extras.
Import PyStr PyList PyDict Parser Loop.

Lemma is_blank_step h st raw_line :
  Spec.is_blank (rstrip_nl raw_line) = true → step h st raw_line = inr st.
Proof. unfold Spec.is_blank, step. by intros ->. Qed.

(** X1.  A blank line anywhere in the input changes nothing: both scripts'
    parsers give the same result with and without it. *)
Theorem blank_lines_are_ignored pre raw_line post :
  Spec.is_blank (rstrip_nl raw_line) = true →
  Intersections.parse_lines (pre ++ raw_line :: post)
  = Intersections.parse_lines (pre ++ post)
  ∧ Upset.parse_lines (pre ++ raw_line :: post) = Upset.parse_lines (pre ++ post).
Proof.
  intros Hb.
  assert (∀ h, scan h init (pre ++ raw_line :: post) = scan h init (pre ++ post)) as Hscan.
  { intros h. rewrite !scan_app. destruct (scan h init pre) as [e|st]; [done|].
    simpl. by rewrite (is_blank_step h st raw_line Hb). }
  unfold Intersections.parse_lines, Upset.parse_lines. by rewrite !Hscan.
Qed.

Lemma blank_lines_are_ignored_witness :
  Intersections.parse_lines
    (readlines Samples.header_row ++ Samples.nl :: readlines (Samples.data_row "r" "A" "Yes"))
  = Intersections.parse_lines
      (readlines Samples.header_row ++ readlines (Samples.data_row "r" "A" "Yes"))
  ∧ Upset.parse_lines
      (readlines Samples.header_row ++ Samples.nl :: readlines (Samples.data_row "r" "A" "Yes"))
    = Upset.parse_lines
        (readlines Samples.header_row ++ readlines (Samples.data_row "r" "A" "Yes")).
Proof. apply blank_lines_are_ignored. reflexivity. Defined.

Lemma string_app_cons a r t : (String a r ++ t)%string = String a (r ++ t)%string.
Proof. done. Qed.

Lemma string_app_nil_l t : (EmptyString ++ t)%string = t.
Proof. done. Qed.

Lemma prefix_nil s : String.prefix EmptyString s = true.
Proof. by destruct s. Qed.

Lemma prefix_cons_nil a p : String.prefix (String a p) EmptyString = false.
Proof. done. Qed.

Lemma prefix_cons_cons a p b r :
  String.prefix (String a p) (String b r)
  = if ascii_dec a b then String.prefix p r else false.
Proof. done. Qed.

Lemma prefix_snoc p c s :
  String.prefix (p ++ String c "") (s ++ String c "") = true →
  String.prefix (p ++ String c "") s = true ∨ s = p.
Proof.
  revert s. induction p as [|a p IH]; intros s.
  - rewrite string_app_nil_l. destruct s as [|b r]; [by right|].
    rewrite string_app_cons, !prefix_cons_cons. intros H. left.
    destruct (ascii_dec c b); [apply prefix_nil|done].
  - rewrite string_app_cons. destruct s as [|b r].
    + rewrite string_app_nil_l, prefix_cons_cons.
      destruct (ascii_dec a c); [|done].
      destruct p; [by rewrite string_app_nil_l|by rewrite string_app_cons].
    + rewrite string_app_cons, !prefix_cons_cons.
      destruct (ascii_dec a b) as [->|]; [|done].
      intros [H| ->]%IH; [by left|by right].
Qed.

Lemma prefix_app_more p s t :
  String.prefix p s = true → String.prefix p (s ++ t) = true.
Proof.
  revert s. induction p as [|a p IH]; intros s; [intros _; apply prefix_nil|].
  destruct s as [|b r]; [done|].
  rewrite string_app_cons, !prefix_cons_cons.
  destruct (ascii_dec a b); [apply IH|done].
Qed.

Lemma startswith_marker_snoc line :
  contains TAB line = true →
  startswith (line ++ String TAB "") header_marker = startswith line header_marker.
Proof.
  intros Htab. unfold startswith.
  destruct (String.prefix header_marker line) eqn:E.
  - by apply prefix_app_more.
  - destruct (String.prefix header_marker (line ++ String TAB "")) eqn:E'; [|done].
    apply (prefix_snoc "NAME" TAB line) in E' as [E'| ->]; [|done].
    unfold header_marker in E. congruence.
Qed.

Lemma header_columns_snoc line :
  header_columns (line ++ String TAB "") = header_columns line.
Proof.
  unfold header_columns. rewrite split_snoc_sep, map_app, List.filter_app. simpl.
  apply app_nil_r.
Qed.

(** X2.  A trailing tab on a line that already holds a tab changes nothing:
    the iteration gives the same result with and without it, in every
    state. *)
Theorem trailing_tab_is_harmless h st raw_line raw_line' :
  contains TAB (rstrip_nl raw_line) = true →
  rstrip_nl raw_line' = (rstrip_nl raw_line ++ String TAB "")%string →
  step h st raw_line' = step h st raw_line.
Proof.
  intros Htab Hline. unfold step. rewrite Hline.
  rewrite (strip_snoc_space _ TAB eq_refl), (contains_app_l TAB _ _ Htab), Htab.
  rewrite (startswith_marker_snoc _ Htab), header_columns_snoc.
  by rewrite split_snoc_sep, pop_trailing_empty_snoc.
Qed.

Lemma trailing_tab_is_harmless_witness :
  step Intersections.no_handler Samples.in_block
    ("row_0" ++ Samples.tab ++ "A" ++ Samples.tab ++ "Yes" ++ Samples.tab ++ Samples.nl)%string
  = step Intersections.no_handler Samples.in_block (Samples.data_row "row_0" "A" "Yes").
Proof. apply trailing_tab_is_harmless; reflexivity. Defined.

End parser_extras.

Section parser_shape.
Import PyStr PyList PyDict Parser Loop.

Lemma dataset_line_clean line :
  Spec.is_dataset_line line = true → Blocks.clean_id (strip line).
Proof.
  unfold Spec.is_dataset_line. intros [Htab Hgse]%andb_true_iff.
  apply negb_true_iff in Htab. split_and!; [apply strip_idemp| |done].
  by apply contains_strip.
Qed.

(** How the keys move in one iteration: unchanged, or one clean
    identifier appended. *)
Lemma step_keys h st raw_line st' :
  wf st → step h st raw_line = inr st' →
  keys (datasets_to_genes st') = keys (datasets_to_genes st)
  ∨ ∃ ds, Blocks.clean_id ds
          ∧ keys (datasets_to_genes st') = keys (datasets_to_genes st) ++ [ds].
Proof.
  intros Hwf Hstep. pose proof (step_cases h st raw_line Hwf) as Hcase.
  rewrite Hstep in Hcase.
  inversion Hcase as
    [Hb|Hb Hd|si ci Hb Hd Hh Hm Hl|col Hb Hd Hh Hm Hl|Hb Hd Hm Ho
    |ds cols si ci genes Hb Hd Hc Hh Hsi Hci Hg]; subst; try by left.
  - simpl. unfold setdefault.
    destruct (get _ (datasets_to_genes st)); [by left|]. right.
    exists (strip (rstrip_nl raw_line)). split; [by apply dataset_line_clean|].
    by rewrite keys_app.
  - left. destruct (Spec.contributes si ci _); [|done]. simpl.
    apply keys_set_present. by eexists.
Qed.

Lemma scan_keys_clean h lines st st' :
  wf st → Forall Blocks.clean_id (keys (datasets_to_genes st)) →
  scan h st lines = inr st' →
  Forall Blocks.clean_id (keys (datasets_to_genes st')).
Proof.
  revert st. induction lines as [|x r IH]; intros st Hwf Hall; simpl.
  - by intros [= <-].
  - destruct (step h st x) as [|st1] eqn:Hs; simpl; [done|].
    apply IH; [by eapply step_wf|].
    destruct (step_keys h st x st1 Hwf Hs) as [->|(ds & Hds & ->)]; [done|].
    apply Forall_app. split; [done|]. by constructor.
Qed.

Lemma flagged_pairs_clean c lines ds g :
  (ds, g) ∈ Spec.flagged_pairs c lines → Blocks.clean_symbol g.
Proof.
  revert c. induction lines as [|x r IH]; intros c; simpl.
  - by intros ?%elem_of_nil.
  - destruct (Spec.advance c x) as [c' out] eqn:Hadv.
    intros [Hin|Hin]%elem_of_app; [|by eapply IH].
    unfold Spec.advance in Hadv.
    destruct (Spec.is_blank _); [simplify_eq; by apply elem_of_nil in Hin|].
    destruct (Spec.is_dataset_line _); [simplify_eq; by apply elem_of_nil in Hin|].
    destruct (Spec.columns c) as [[si ci]|].
    + destruct (Spec.block c) as [ds0|]; [|simplify_eq; by apply elem_of_nil in Hin].
      destruct (Spec.contributes si ci _) eqn:Hc;
        [|simplify_eq; by apply elem_of_nil in Hin].
      simplify_eq. apply list_elem_of_singleton in Hin as [= -> ->].
      unfold Spec.contributes in Hc. apply andb_true_iff in Hc as [_ Ht].
      unfold Spec.symbol_of in *. split_and!.
      * apply strip_idemp.
      * intros Heq. by rewrite Heq in Ht.
      * apply contains_strip, field_no_tab.
    + destruct (Spec.is_header_line _); simplify_eq; by apply elem_of_nil in Hin.
Qed.

(** X3.  Every dataset identifier and every gene symbol of the returned
    mapping is trimmed and holds no tab; identifiers begin with the
    dataset prefix, symbols are not empty. *)
Theorem parsed_names_are_clean lines d :
  Intersections.parse_lines lines = inr d →
  Forall Blocks.clean_id (keys d)
  ∧ ∀ ds genes g, (ds, genes) ∈ d → g ∈ genes → Blocks.clean_symbol g.
Proof.
  intros Hparse. pose proof (parse_lines_spec _ _ Hparse) as (_ & _ & Hmem).
  apply parse_lines_inv in Hparse as (st & Hscan & ->). split.
  - assert (Forall Blocks.clean_id (keys (datasets_to_genes st))) as Hall.
    { eapply scan_keys_clean; [apply wf_init|constructor|done]. }
    rewrite Forall_forall in Hall. apply Forall_forall. intros ds Hds.
    apply Hall. unfold keys, drop_empty in *.
    apply list_elem_of_fmap in Hds as (kv & -> & [_ Hin]%list_elem_of_filter).
    apply list_elem_of_fmap. by exists kv.
  - intros ds genes g Hin Hg. eapply flagged_pairs_clean. apply Hmem.
    by exists genes.
Qed.

Lemma parsed_names_are_clean_witness :
  Forall Blocks.clean_id
    (keys [("GSE1", {["A"]} ∪ {["B"]}); ("GSE2", {["B"]} ∪ {["C"]} : gset string)])
  ∧ ∀ ds genes g,
      (ds, genes) ∈ [("GSE1", {["A"]} ∪ {["B"]}); ("GSE2", {["B"]} ∪ {["C"]} : gset string)] →
      g ∈ genes → Blocks.clean_symbol g.
Proof.
  apply (parsed_names_are_clean (readlines Samples.two_blocks)).
  vm_compute. reflexivity.
Defined.

Lemma flagged_pairs_app c l1 l2 :
  Spec.flagged_pairs c (l1 ++ l2)
  = Spec.flagged_pairs c l1 ++ Spec.flagged_pairs (Blocks.cursor_after c l1) l2.
Proof.
  revert c. induction l1 as [|x r IH]; intros c; simpl; [done|].
  destruct (Spec.advance c x) as [c' out]. simpl. by rewrite IH, app_assoc.
Qed.

(** X4.  Reading on never loses anything: when an input and a longer
    input that begins with it both parse, every dataset and every gene of
    the shorter one's result is in the longer one's. *)
Theorem parsing_more_keeps_earlier lines more d d' :
  Intersections.parse_lines lines = inr d →
  Intersections.parse_lines (lines ++ more) = inr d' →
  (∀ ds g, member d ds g → member d' ds g)
  ∧ (∀ ds, ds ∈ keys d → ds ∈ keys d').
Proof.
  intros (_ & Hne & Hmem)%parse_lines_spec (_ & _ & Hmem')%parse_lines_spec.
  assert (∀ ds g, member d ds g → member d' ds g) as Hmono.
  { intros ds g Hin. apply Hmem'. rewrite flagged_pairs_app, elem_of_app.
    left. by apply Hmem. }
  split; [done|]. intros ds Hds. unfold keys in *.
  apply list_elem_of_fmap in Hds as ([ds0 genes] & -> & Hin). simpl.
  assert (genes ≠ ∅) as [g Hg]%set_choose_L by (by eapply Hne).
  destruct (Hmono ds0 g) as (genes' & Hin' & _); [by exists genes|].
  apply list_elem_of_fmap. by exists (ds0, genes').
Qed.

Lemma parsing_more_keeps_earlier_witness :
  (∀ ds g, member [("GSE1", {["A"]} : gset string)] ds g
           → member [("GSE1", {["A"]} ∪ {["B"]} : gset string)] ds g)
  ∧ (∀ ds, ds ∈ keys [("GSE1", {["A"]} : gset string)]
           → ds ∈ keys [("GSE1", {["A"]} ∪ {["B"]} : gset string)]).
Proof.
  apply (parsing_more_keeps_earlier
           (readlines ("GSE1" ++ Samples.nl ++ Samples.header_row
                       ++ Samples.data_row "row_0" "A" "Yes"))
           (readlines (Samples.data_row "row_1" "B" "Yes"))).
  - vm_compute. reflexivity.
  - vm_compute. reflexivity.
Defined.

(** An iteration raises only in the header branch, with what the handler
    makes of the failed lookup. *)
Lemma step_error_shape h st raw_line e :
  wf st → step h st raw_line = inl e →
  ∃ col, e = h (header_columns (rstrip_nl raw_line)) (ValueError col).
Proof.
  intros Hwf Hstep. pose proof (step_cases h st raw_line Hwf) as Hcase.
  rewrite Hstep in Hcase. inversion Hcase; subst. by eexists.
Qed.

Lemma scan_error_shape h lines st e :
  wf st → scan h st lines = inl e →
  ∃ cols col, e = h cols (ValueError col).
Proof.
  revert st. induction lines as [|x r IH]; intros st Hwf; simpl; [done|].
  destruct (step h st x) as [e'|st1] eqn:Hs; simpl.
  - intros [= <-]. destruct (step_error_shape h st x e' Hwf Hs) as [col ->].
    by eexists _, _.
  - apply IH. by eapply step_wf.
Qed.

Lemma scan_fails_together h1 h2 lines st e :
  scan h1 st lines = inl e → ∃ e', scan h2 st lines = inl e'.
Proof.
  intros H1. destruct (scan h2 st lines) as [e'|st'] eqn:H2; [by eexists|].
  apply (scan_handler_irrel h2 h1) in H2. congruence.
Qed.

(** X5.  The UpSet script's parser agrees with the intersections script's:
    the same non-empty mapping; its own [RuntimeError] where the other
    returns the empty mapping; and its header [RuntimeError] exactly where
    the other raises. *)
Theorem upset_parser_agrees lines :
  match Intersections.parse_lines lines with
  | inr [] => Upset.parse_lines lines = inl (RuntimeError Upset.empty_msg)
  | inr d => Upset.parse_lines lines = inr d
  | inl e =>
      (∃ col, e = ValueError col)
      ∧ ∃ cols, Upset.parse_lines lines = inl (RuntimeError (Upset.expected_msg cols))
  end.
Proof.
  unfold Intersections.parse_lines, Upset.parse_lines.
  destruct (scan Intersections.no_handler init lines) as [e|st] eqn:Hscan; simpl.
  - destruct (scan_error_shape _ _ _ _ wf_init Hscan) as (? & col & ->).
    split; [by eexists|].
    destruct (scan_fails_together _ Upset.header_handler _ _ _ Hscan) as [e' He'].
    rewrite He'. simpl.
    destruct (scan_error_shape _ _ _ _ wf_init He') as (cols & ? & ->). by exists cols.
  - rewrite (scan_handler_irrel _ Upset.header_handler _ _ _ Hscan). simpl.
    by destruct (drop_empty (datasets_to_genes st)).
Qed.

End parser_shape.

(** ** Further properties of the aggregator and the reporter *)

Section aggregate_extras.
Import PyStr PyList PyDict Parser Intersections Loop Agg.

Lemma member_invert o d g ds :
  member (invert_to_gene_counts o d) g ds ↔ member d ds g.
Proof.
  destruct (invert_spec o d) as [_ Hspec]. rewrite <-(elem_of_holders d g ds).
  unfold member. split.
  - intros (S & Hin & Hds). apply Hspec in Hin as [-> _]. done.
  - intros Hds. exists (holders d g). split; [|done].
    apply Hspec. split; [done|]. set_solver.
Qed.

Lemma holders_invert o d ds S :
  NoDup (keys d) → (ds, S) ∈ d → holders (invert_to_gene_counts o d) ds = S.
Proof.
  intros Hk Hin. apply set_eq. intros g.
  rewrite elem_of_holders, member_invert. unfold member. split.
  - intros (S' & Hin' & Hg).
    apply elem_of_iff_get in Hin, Hin'; [|done..]. congruence.
  - intros Hg. by exists S.
Qed.

(** X6.  Inverting is its own inverse on a parsed mapping: a gene's
    dataset set holds a dataset exactly when the dataset's gene set holds
    the gene, and inverting the inverted index gives back the parsed
    mapping, up to the order of its entries. *)
Theorem invert_twice_gives_back o o' lines d :
  parse_lines lines = inr d →
  (∀ ds g, member (invert_to_gene_counts o d) g ds ↔ member d ds g)
  ∧ invert_to_gene_counts o' (invert_to_gene_counts o d) ≡ₚ d.
Proof.
  intros (Hk & Hne & _)%parse_lines_spec. split; [intros; apply member_invert|].
  destruct (invert_spec o' (invert_to_gene_counts o d)) as [Hk' Hspec].
  apply NoDup_Permutation; [by apply NoDup_keys_NoDup..|].
  intros [ds S]. rewrite Hspec. split.
  - intros [-> Hnon]. apply set_choose_L in Hnon as [g Hg].
    apply (proj1 (elem_of_holders _ _ _)) in Hg.
    apply (proj1 (member_invert _ _ _ _)) in Hg as (S' & Hin & _).
    by rewrite (holders_invert o d ds S' Hk Hin).
  - intros Hin. rewrite (holders_invert o d ds S Hk Hin). split; [done|by eapply Hne].
Qed.

Lemma invert_twice_gives_back_witness :
  (∀ ds g,
     member (invert_to_gene_counts default_order
               [("GSE1", {["A"]} ∪ {["B"]}); ("GSE2", {["B"]} ∪ {["C"]} : gset string)]) g ds
     ↔ member [("GSE1", {["A"]} ∪ {["B"]}); ("GSE2", {["B"]} ∪ {["C"]} : gset string)] ds g)
  ∧ invert_to_gene_counts reverse_order
      (invert_to_gene_counts default_order
         [("GSE1", {["A"]} ∪ {["B"]}); ("GSE2", {["B"]} ∪ {["C"]} : gset string)])
    ≡ₚ [("GSE1", {["A"]} ∪ {["B"]}); ("GSE2", {["B"]} ∪ {["C"]} : gset string)].
Proof.
  apply (invert_twice_gives_back default_order reverse_order
           (readlines Samples.two_blocks)).
  vm_compute. reflexivity.
Defined.

Lemma memberships_app d1 d2 :
  Blocks.memberships (d1 ++ d2) = Blocks.memberships d1 + Blocks.memberships d2.
Proof. unfold Blocks.memberships. apply sum_list_with_app. Qed.

Lemma memberships_set k v v0 (d : dict (gset string)) :
  get k d = Some v0 →
  Blocks.memberships (set k v d) + size v0 = Blocks.memberships d + size v.
Proof.
  unfold Blocks.memberships. induction d as [|[k' v'] r IH]; simpl; [done|].
  destruct (String.eqb k' k).
  - intros [= ->]. simpl. lia.
  - intros H. simpl. specialize (IH H). lia.
Qed.

Lemma memberships_add_dataset ds acc g :
  ds ∉ datasets_at acc g →
  Blocks.memberships (add_dataset ds acc g) = S (Blocks.memberships acc).
Proof.
  unfold datasets_at, add_dataset. destruct (get g acc) as [s|] eqn:E; simpl; intros Hds.
  - pose proof (memberships_set g (s ∪ {[ds]}) s acc E) as Hset.
    rewrite size_union, size_singleton in Hset by set_solver. lia.
  - rewrite memberships_app.
    change (Blocks.memberships [(g, {[ds]})]) with (size ({[ds]} : gset string) + 0).
    rewrite size_singleton. lia.
Qed.

Lemma memberships_inner ds gs acc :
  NoDup gs → (∀ g, g ∈ gs → ds ∉ datasets_at acc g) →
  Blocks.memberships (fold_left (add_dataset ds) gs acc)
  = Blocks.memberships acc + length gs.
Proof.
  revert acc. induction gs as [|g0 gs IH]; intros acc Hnd Hfresh; cbn [fold_left length].
  - lia.
  - apply NoDup_cons in Hnd as [Hg0 Hnd]. rewrite IH; [|done|].
    + rewrite memberships_add_dataset; [lia|]. apply Hfresh. left.
    + intros g Hg. rewrite datasets_at_add_dataset. rewrite decide_False.
      * apply Hfresh. by right.
      * intros ->. done.
Qed.

Lemma memberships_outer o d acc :
  NoDup (keys d) →
  (∀ g ds, ds ∈ keys d → ds ∉ datasets_at acc g) →
  Blocks.memberships
    (fold_left
       (λ acc '(ds, genes),
          fold_left (add_dataset ds) (set_iter o (GenesOf ds) genes) acc) d acc)
  = Blocks.memberships acc + Blocks.memberships d.
Proof.
  revert acc. induction d as [|[ds genes] d IH]; intros acc Hnd Hfresh; cbn [fold_left].
  - change (Blocks.memberships []) with 0. lia.
  - unfold keys in Hnd. rewrite fmap_cons in Hnd. apply NoDup_cons in Hnd as [Hds Hnd].
    pose proof (inner_loop ds (set_iter o (GenesOf ds) genes) acc) as (_ & _ & I3).
    simpl in I3. rewrite IH; [|done|].
    + rewrite memberships_inner.
      * change (Blocks.memberships ((ds, genes) :: d))
          with (size genes + Blocks.memberships d).
        rewrite (set_iter_perm o).
        change (size genes) with (length (elements genes)). lia.
      * rewrite (set_iter_perm o). apply NoDup_elements.
      * intros g _. apply Hfresh. unfold keys. rewrite fmap_cons. left.
    + intros g ds' Hds'. rewrite I3.
      assert (ds' ∉ datasets_at acc g) as Hold.
      { apply Hfresh. unfold keys. rewrite fmap_cons. by right. }
      case_decide; [|done]. apply not_elem_of_union. split; [done|].
      apply not_elem_of_singleton. intros ->. done.
Qed.

Lemma memberships_invert o d :
  NoDup (keys d) → Blocks.memberships (invert_to_gene_counts o d) = Blocks.memberships d.
Proof.
  intros Hnd. unfold invert_to_gene_counts. rewrite memberships_outer; [done..|].
  intros g ds _. unfold datasets_at. simpl. set_solver.
Qed.

(** X7.  The counts of the full output add up to the number of flagged
    (dataset, gene) memberships of the parsed mapping. *)
Theorem counts_sum_to_memberships o lines d :
  parse_lines lines = inr d →
  sum_list_with count (sorted_rows o (invert_to_gene_counts o d))
  = Blocks.memberships d.
Proof.
  intros (Hk & _ & _)%parse_lines_spec.
  rewrite <-(memberships_invert o d Hk), sorted_rows_Permutation.
  unfold Blocks.memberships. generalize (invert_to_gene_counts o d).
  intros l. induction l as [|kv l IH]; simpl; [done|]. by rewrite IH.
Qed.

Lemma counts_sum_to_memberships_witness :
  sum_list_with count
    (sorted_rows default_order
       (invert_to_gene_counts default_order
          [("GSE1", {["A"]} ∪ {["B"]}); ("GSE2", {["B"]} ∪ {["C"]} : gset string)]))
  = Blocks.memberships
      [("GSE1", {["A"]} ∪ {["B"]}); ("GSE2", {["B"]} ∪ {["C"]} : gset string)].
Proof.
  apply (counts_sum_to_memberships default_order (readlines Samples.two_blocks)).
  vm_compute. reflexivity.
Defined.

(** X8.  A run that returns 0 wrote at least one data row to each file;
    every count of the full output is at least 1 and at most the number of
    parsed datasets; and every row of the max-only output is a row of the
    full output with the largest count. *)
Theorem successful_run_shape o text full max :
  main o text = Exit 0 [full; max] →
  ∃ d rows,
    parse_doxset_rinn_tsv text = inr d
    ∧ full = write_file full_name rows
    ∧ max = write_file max_name (max_only rows)
    ∧ rows ≠ [] ∧ max_only rows ≠ []
    ∧ (∀ r, r ∈ rows → 1 ≤ count r ≤ length d)
    ∧ (∀ r, r ∈ max_only rows → r ∈ rows ∧ count r = Spec.largest_count rows).
Proof.
  intros (d & Hparse & Hd & -> & ->)%main_success_inv.
  exists d, (sorted_rows o (invert_to_gene_counts o d)).
  destruct (parse_lines_spec _ _ Hparse) as (Hk & Hne & _).
  destruct (invert_spec o d) as [_ Hspec].
  pose proof (sorted_rows_sorted o (invert_to_gene_counts o d)) as Hsorted.
  assert (sorted_rows o (invert_to_gene_counts o d) ≠ []) as Hrows.
  { destruct d as [|[ds genes] d]; [done|].
    assert (genes ≠ ∅) as [g Hg]%set_choose_L by (eapply Hne; left).
    assert (g ∈ keys (invert_to_gene_counts o ((ds, genes) :: d))) as Hkey.
    { apply invert_keys. exists ds, genes. split; [left|done]. }
    intros Hnil. apply (f_equal length) in Hnil.
    rewrite sorted_rows_length in Hnil.
    destruct (invert_to_gene_counts o ((ds, genes) :: d)); [|done].
    by apply elem_of_nil in Hkey. }
  split_and!; [done..| | |].
  - destruct (sorted_rows o (invert_to_gene_counts o d)) as [|r0 rows]; [done|].
    unfold max_only. simpl. by rewrite filter_cons_True.
  - intros r ([g S] & [-> HS]%Hspec & ->)%elem_of_sorted_rows. simpl. split.
    + assert (size (holders d g) ≠ 0); [|lia].
      intros H0%size_empty_iff. by apply leibniz_equiv in H0.
    + rewrite size_holders by done. unfold Spec.datasets_holding.
      rewrite length_fmap. apply length_filter.
  - intros r [Hc Hr]%list_elem_of_filter. split; [done|].
    by rewrite Hc, (max_count_largest _ Hsorted).
Qed.

Lemma successful_run_shape_witness :
  ∃ d rows,
    parse_doxset_rinn_tsv Samples.two_blocks = inr d
    ∧ write_file full_name
        [Row "B" 2 ["GSE1"; "GSE2"]; Row "A" 1 ["GSE1"]; Row "C" 1 ["GSE2"]]
      = write_file full_name rows
    ∧ write_file max_name [Row "B" 2 ["GSE1"; "GSE2"]]
      = write_file max_name (max_only rows)
    ∧ rows ≠ [] ∧ max_only rows ≠ []
    ∧ (∀ r, r ∈ rows → 1 ≤ count r ≤ length d)
    ∧ (∀ r, r ∈ max_only rows → r ∈ rows ∧ count r = Spec.largest_count rows).
Proof.
  apply (successful_run_shape default_order Samples.two_blocks).
  vm_compute. reflexivity.
Defined.

End aggregate_extras.

(** ** [concatenate_gsea_tsvs.py], and the parser on its output *)

Section concatenate_facts.
Import PyStr PyList PyDict Parser Loop Concatenate.

Lemma string_app_assoc (a b c : string) : ((a ++ b) ++ c = a ++ (b ++ c))%string.
Proof.
  induction a as [|x a IH]; [done|]. rewrite !string_app_cons. by rewrite IH.
Qed.

Lemma string_app_nil_r (a : string) : (a ++ "")%string = a.
Proof. induction a as [|x a IH]; [done|]. by rewrite string_app_cons, IH. Qed.

Lemma split_head sep s :
  ∃ h t, split sep s = h :: t
         ∧ contains sep h = false
         ∧ (s = h ∨ ∃ rest, s = (h ++ String sep rest)%string).
Proof.
  induction s as [|a r (h & t & Hsplit & Hh & Hs)]; simpl.
  - exists EmptyString, []. split_and!; [done|done|by left].
  - destruct (Ascii.eqb_spec a sep) as [->|Hne].
    + exists EmptyString, (split sep r). split_and!; [done|done|]. right. by exists r.
    + rewrite Hsplit. exists (String a h), t. split_and!; [done| |].
      * simpl. rewrite Hh. by apply Ascii.eqb_neq in Hne as ->.
      * destruct Hs as [->|[rest ->]]; [by left|]. right. by exists rest.
Qed.

(** X9.  The accession written for a folder is the part of the folder
    name before its first underscore: it holds no underscore, and the name
    is the accession alone or the accession, an underscore, and a rest. *)
Theorem accession_is_text_before_underscore folder :
  contains "_" (gse_accession folder) = false
  ∧ (folder = gse_accession folder
     ∨ ∃ rest, folder = (gse_accession folder ++ String "_" rest)%string).
Proof.
  unfold gse_accession. destruct (split_head "_" folder) as (h & t & -> & Hh & Hs).
  done.
Qed.

Lemma concat_empty_cons (x : string) l :
  String.concat "" (x :: l) = (x ++ String.concat "" l)%string.
Proof. destruct l; [by rewrite string_app_nil_r|done]. Qed.

Lemma join_cons_blocks (b : string) bs :
  join nl (b :: bs)
  = (b ++ String.concat "" (map (λ b', nl ++ b')%string bs))%string.
Proof.
  unfold join. revert b. induction bs as [|b' bs IH]; intros b.
  - by rewrite string_app_nil_r.
  - change (String.concat nl (b :: b' :: bs))
      with (b ++ nl ++ String.concat nl (b' :: bs))%string.
    rewrite IH, map_cons, concat_empty_cons. by rewrite string_app_assoc.
Qed.

Lemma block_text_later k folder content :
  block_text (S k) folder content
  = (nl ++ Blocks.block (gse_accession folder, content))%string.
Proof. done. Qed.

Lemma block_text_first folder content :
  block_text 0 folder content = Blocks.block (gse_accession folder, content).
Proof. done. Qed.

Lemma existing_cons fs folder rest :
  Blocks.existing fs (folder :: rest)
  = match fs folder with
    | Some content => (gse_accession folder, content) :: Blocks.existing fs rest
    | None => Blocks.existing fs rest
    end.
Proof. unfold Blocks.existing. simpl. by destruct (fs folder). Qed.

Lemma write_folders_later fs k folders :
  write_folders fs (S k) folders
  = String.concat ""
      (map (λ b, nl ++ b)%string (map Blocks.block (Blocks.existing fs folders))).
Proof.
  revert k. induction folders as [|folder rest IH]; intros k; [done|].
  cbn [write_folders]. rewrite existing_cons. destruct (fs folder) as [content|].
  - rewrite !map_cons, concat_empty_cons, IH. by rewrite block_text_later.
  - apply IH.
Qed.

Lemma write_folders_first fs folders :
  write_folders fs 0 folders
  = join nl (map Blocks.block (Blocks.existing fs folders)).
Proof.
  induction folders as [|folder rest IH]; [done|].
  cbn [write_folders]. rewrite existing_cons. destruct (fs folder) as [content|].
  - rewrite map_cons, join_cons_blocks, write_folders_later. by rewrite block_text_first.
  - apply IH.
Qed.

(** X10.  Nothing is written when the pattern matches no folder.
    Otherwise the output is the blocks of the folders whose file exists,
    in the sorted order of the folders, joined by one blank line; a block
    is the accession line followed by the file's text with its last line
    terminated.  Folders without the file leave no trace. *)
Theorem concatenation_is_joined_blocks fs globbed :
  concatenate_tsv_files fs globbed
  = if decide (globbed = []) then None
    else Some (join nl (map Blocks.block
                          (Blocks.existing fs (sort String.leb globbed)))).
Proof.
  unfold concatenate_tsv_files. rewrite write_folders_first.
  pose proof (sort_Permutation String.leb globbed) as Hp.
  destruct (sort String.leb globbed) as [|f fs'] eqn:Hs.
  - apply Permutation_nil in Hp. by rewrite decide_True.
  - rewrite decide_False; [done|]. intros ->. by apply Permutation_nil_r in Hp.
Qed.

Lemma dataset_line_not_blank line :
  Spec.is_dataset_line line = true → Spec.is_blank line = false.
Proof.
  unfold Spec.is_dataset_line, Spec.is_blank, startswith.
  intros [_ Hgse]%andb_true_iff. by destruct (strip line).
Qed.

Lemma advance_accession_line c acc :
  Blocks.readable_accession acc →
  Spec.advance c (acc ++ nl)%string = (Blocks.block_cursor (strip acc), []).
Proof.
  intros [Hlf Hds]. unfold Spec.advance.
  rewrite rstrip_nl_snoc, (rstrip_nl_no_LF _ Hlf).
  by rewrite (dataset_line_not_blank _ Hds), Hds.
Qed.

Lemma advance_blank_line c : Spec.advance c nl = (c, []).
Proof. done. Qed.

Lemma readlines_block acc content rest :
  contains LF acc = false →
  readlines (Blocks.block (acc, content) ++ rest)%string
  = (acc ++ nl)%string :: readlines (Blocks.terminated content) ++ readlines rest.
Proof.
  intros Hlf. unfold Blocks.block. simpl.
  rewrite !string_app_assoc. unfold nl at 1.
  rewrite string_app_cons, string_app_nil_l, (readlines_line _ _ Hlf).
  by rewrite (readlines_app_terminated _ _ (terminated_ends content)).
Qed.

(** The pairs of the written text are the pairs of the source files, each
    read as the block of its accession, whatever cursor the reading
    starts from. *)
Lemma flagged_pairs_write_folders fs folders :
  (∀ folder content, folder ∈ folders → fs folder = Some content →
                     Blocks.readable_accession (gse_accession folder)) →
  ∀ k c,
    Spec.flagged_pairs c (readlines (write_folders fs k folders))
    = folders ≫= Blocks.folder_pairs fs.
Proof.
  induction folders as [|folder rest IH]; intros Hacc k c; [done|].
  cbn [write_folders]. rewrite bind_cons. unfold Blocks.folder_pairs at 1.
  assert (∀ f content, f ∈ rest → fs f = Some content →
                       Blocks.readable_accession (gse_accession f)) as Hrest.
  { intros f content Hf. apply Hacc. by right. }
  destruct (fs folder) as [content|] eqn:Hfs; [|by apply IH].
  assert (Blocks.readable_accession (gse_accession folder)) as Hread.
  { eapply Hacc; [left|done]. }
  assert (∀ c', Spec.flagged_pairs c'
                  (readlines (Blocks.block (gse_accession folder, content)
                              ++ write_folders fs (S k) rest)%string)
                = Blocks.file_pairs (strip (gse_accession folder)) content
                  ++ (rest ≫= Blocks.folder_pairs fs)) as Hblock.
  { intros c'. rewrite (readlines_block _ _ _ (proj1 Hread)).
    cbn [Spec.flagged_pairs]. rewrite (advance_accession_line _ _ Hread).
    rewrite flagged_pairs_app, (IH Hrest). done. }
  destruct k as [|k].
  - rewrite block_text_first. apply Hblock.
  - rewrite block_text_later, string_app_assoc. unfold nl at 1.
    rewrite string_app_cons, string_app_nil_l.
    rewrite (readlines_cons LF). simpl (Ascii.eqb LF LF).
    cbn [Spec.flagged_pairs]. fold nl. rewrite advance_blank_line. apply Hblock.
Qed.

Lemma flagged_pairs_same_block lines :
  Forall (λ raw_line, Spec.is_dataset_line (rstrip_nl raw_line) = false) lines →
  ∀ c ds0 ds g,
    Spec.block c = Some ds0 → (ds, g) ∈ Spec.flagged_pairs c lines → ds = ds0.
Proof.
  induction 1 as [|x r Hx Hr IH]; intros c ds0 ds g Hblock; simpl.
  - by intros ?%elem_of_nil.
  - unfold Spec.advance. rewrite Hx.
    destruct (Spec.is_blank _); [rewrite app_nil_l; by apply IH|].
    destruct (Spec.columns c) as [[si ci]|].
    + rewrite Hblock. intros [Hin|Hin]%elem_of_app; [|by eapply IH].
      destruct (Spec.contributes si ci _); [|by apply elem_of_nil in Hin].
      by apply list_elem_of_singleton in Hin as [= -> _].
    + destruct (Spec.is_header_line _); rewrite app_nil_l; by apply IH.
Qed.

(** X11.  Parsing the concatenation gives exactly the pairs flagged in the
    source files, each file read on its own as the block of its accession;
    and a file that holds no dataset-identifier line of its own puts all
    its genes under its accession.  The accessions must read back as
    dataset lines (no line end or tab, and, trimmed, the dataset prefix). *)
Theorem parse_of_concatenation fs globbed text d :
  concatenate_tsv_files fs globbed = Some text →
  (∀ folder content, folder ∈ globbed → fs folder = Some content →
                     Blocks.readable_accession (gse_accession folder)) →
  Intersections.parse_doxset_rinn_tsv text = inr d →
  (∀ ds g,
     member d ds g
     ↔ ∃ folder content,
         folder ∈ globbed ∧ fs folder = Some content
         ∧ (ds, g) ∈ Blocks.file_pairs (strip (gse_accession folder)) content)
  ∧ (∀ acc content ds g,
       Forall (λ raw_line, Spec.is_dataset_line (rstrip_nl raw_line) = false)
         (readlines (Blocks.terminated content)) →
       (ds, g) ∈ Blocks.file_pairs acc content → ds = acc).
Proof.
  intros Hcat Hacc Hparse. split.
  - intros ds g.
    destruct (parse_lines_spec _ _ Hparse) as (_ & _ & Hmem). rewrite Hmem.
    unfold concatenate_tsv_files in Hcat.
    assert (text = write_folders fs 0 (sort String.leb globbed)) as ->
      by (destruct (sort String.leb globbed); [done|by injection Hcat]).
    rewrite flagged_pairs_write_folders.
    2:{ intros folder content Hin. apply Hacc. by apply sort_elem_of in Hin. }
    rewrite list_elem_of_bind. split.
    + intros (folder & Hin & Hf). apply sort_elem_of in Hf.
      unfold Blocks.folder_pairs in Hin.
      destruct (fs folder) as [content|] eqn:Hfs; [|by apply elem_of_nil in Hin].
      by exists folder, content.
    + intros (folder & content & Hin & Hfs & Hg). exists folder. split.
      * unfold Blocks.folder_pairs. by rewrite Hfs.
      * by apply sort_elem_of.
  - intros acc content ds g Hall Hin.
    by eapply (flagged_pairs_same_block _ Hall (Blocks.block_cursor acc)).
Qed.

Lemma parse_of_concatenation_witness :
  (∀ ds g,
     member [("GSE1", {["A"]}); ("GSE2", {["B"]} : gset string)] ds g
     ↔ ∃ folder content,
         folder ∈ ConcatSamples.globbed ∧ ConcatSamples.tree folder = Some content
         ∧ (ds, g) ∈ Blocks.file_pairs (strip (gse_accession folder)) content)
  ∧ (∀ acc content ds g,
       Forall (λ raw_line, Spec.is_dataset_line (rstrip_nl raw_line) = false)
         (readlines (Blocks.terminated content)) →
       (ds, g) ∈ Blocks.file_pairs acc content → ds = acc).
Proof.
  eapply (parse_of_concatenation ConcatSamples.tree ConcatSamples.globbed).
  - vm_compute. reflexivity.
  - intros folder content Hin.
    repeat (apply elem_of_cons in Hin as [->|Hin]); [by vm_compute..|].
    by apply elem_of_nil in Hin.
  - vm_compute. reflexivity.
Defined.

End concatenate_facts.

(** ** Further properties of whole runs *)

Section run_extras.
Import PyStr PyList PyDict Parser Intersections Loop Agg.

Lemma step_error_missing h st raw_line e :
  wf st → step h st raw_line = inl e →
  ∃ col, (col = SYMBOL ∨ col = CORE_ENRICHMENT)
         ∧ e = h (header_columns (rstrip_nl raw_line)) (ValueError col).
Proof.
  intros Hwf Hstep. pose proof (step_cases h st raw_line Hwf) as Hcase.
  rewrite Hstep in Hcase. inversion Hcase; subst.
  eexists. split; [by eapply missing_column_name|done].
Qed.

Lemma scan_error_missing lines st e :
  wf st → scan no_handler st lines = inl e →
  e = ValueError SYMBOL ∨ e = ValueError CORE_ENRICHMENT.
Proof.
  revert st. induction lines as [|x r IH]; intros st Hwf; simpl; [done|].
  destruct (step no_handler st x) as [e'|st1] eqn:Hs; simpl.
  - intros [= <-].
    destruct (step_error_missing _ _ _ _ Hwf Hs) as (col & [->| ->] & ->); auto.
  - apply IH. by eapply step_wf.
Qed.

(** X12.  On any sequence of decoded lines the parser of either script never
    fails in list indexing or in a dictionary access: whatever it raises is
    not the [TypeError] or [IndexError] of [parts[...]] nor the [KeyError]
    of [datasets_to_genes[current_dataset]]. *)
Theorem parsing_never_fails_in_indexing lines e :
  Intersections.parse_lines lines = inl e ∨ Upset.parse_lines lines = inl e →
  e ≠ TypeError ∧ e ≠ IndexError ∧ ∀ k, e ≠ KeyError k.
Proof.
  intros [Hparse|Hparse].
  - unfold Intersections.parse_lines in Hparse.
    destruct (scan no_handler init lines) as [e'|st] eqn:Hscan; [|done].
    injection Hparse as ->.
    destruct (scan_error_shape _ _ _ _ wf_init Hscan) as (cols & col & ->). done.
  - unfold Upset.parse_lines in Hparse.
    destruct (scan Upset.header_handler init lines) as [e'|st] eqn:Hscan.
    + injection Hparse as ->.
      destruct (scan_error_shape _ _ _ _ wf_init Hscan) as (cols & col & ->). done.
    + simpl in Hparse. destruct (drop_empty _); [|done]. by injection Hparse as <-.
Qed.

Lemma parsing_never_fails_in_indexing_witness :
  ValueError CORE_ENRICHMENT ≠ TypeError
  ∧ ValueError CORE_ENRICHMENT ≠ IndexError
  ∧ ∀ k, ValueError CORE_ENRICHMENT ≠ KeyError k.
Proof.
  apply (parsing_never_fails_in_indexing (readlines Samples.missing_flag_column)).
  left. reflexivity.
Defined.

Lemma holders_Permutation d1 d2 g : d1 ≡ₚ d2 → holders d1 g = holders d2 g.
Proof.
  intros Hp. apply set_eq. intros ds. rewrite !elem_of_holders.
  unfold member. by setoid_rewrite Hp.
Qed.

(** X13.  The report does not depend on the order of the datasets in the
    parsed mapping: two mappings with the same entries in any order give
    the same two files, whatever the iteration orders of the sets. *)
Theorem report_independent_of_dataset_order o1 o2 d1 d2 :
  d1 ≡ₚ d2 →
  write_csvs o1 (invert_to_gene_counts o1 d1)
  = write_csvs o2 (invert_to_gene_counts o2 d2).
Proof.
  intros Hp. unfold write_csvs.
  destruct (invert_spec o1 d1) as [Hk1 Hs1], (invert_spec o2 d2) as [Hk2 Hs2].
  rewrite (sorted_rows_order_irrel o1 o2
             (invert_to_gene_counts o1 d1) (invert_to_gene_counts o2 d2)); [done..|].
  apply NoDup_Permutation; [by apply NoDup_keys_NoDup..|].
  intros [g S]. by rewrite Hs1, Hs2, (holders_Permutation d1 d2 g Hp).
Qed.

Lemma report_independent_of_dataset_order_witness :
  write_csvs default_order
    (invert_to_gene_counts default_order
       [("GSE1", {["A"]} ∪ {["B"]}); ("GSE2", {["B"]} ∪ {["C"]} : gset string)])
  = write_csvs reverse_order
      (invert_to_gene_counts reverse_order
         [("GSE2", {["B"]} ∪ {["C"]}); ("GSE1", {["A"]} ∪ {["B"]} : gset string)]).
Proof.
  apply report_independent_of_dataset_order. apply Permutation_swap.
Defined.

Lemma flagged_pairs_no_block lines :
  Forall (λ raw_line, Spec.is_dataset_line (rstrip_nl raw_line) = false) lines →
  ∀ c, Spec.block c = None → Spec.flagged_pairs c lines = [].
Proof.
  induction 1 as [|x r Hx Hr IH]; intros c Hblock; simpl; [done|].
  unfold Spec.advance. rewrite Hx.
  destruct (Spec.is_blank _); [by apply IH|].
  destruct (Spec.columns c) as [[si ci]|].
  - rewrite Hblock. by apply IH.
  - destruct (Spec.is_header_line _); by apply IH.
Qed.

(** X14.  An input without any dataset-identifier line yields nothing,
    whatever headers and flagged rows it holds: the run returns 1 and
    writes no file, unless a header lacking a column ends it first. *)
Theorem no_dataset_line_no_output o text :
  Forall (λ raw_line, Spec.is_dataset_line (rstrip_nl raw_line) = false)
    (readlines text) →
  main o text = Exit 1 []
  ∨ main o text = Raised (ValueError SYMBOL)
  ∨ main o text = Raised (ValueError CORE_ENRICHMENT).
Proof.
  intros Hall. unfold main, parse_doxset_rinn_tsv.
  destruct (parse_lines (readlines text)) as [e|d] eqn:Hparse.
  - right. unfold parse_lines in Hparse.
    destruct (scan no_handler init (readlines text)) as [e'|st] eqn:Hscan; [|done].
    injection Hparse as ->.
    destruct (scan_error_missing _ _ _ wf_init Hscan) as [->| ->]; auto.
  - left. assert (d = []) as ->; [|done].
    apply (parse_empty_iff _ _ Hparse). by apply flagged_pairs_no_block.
Qed.

Lemma no_dataset_line_no_output_witness :
  main default_order (Samples.header_row ++ Samples.data_row "row_0" "A" "Yes")
  = Exit 1 []
  ∨ main default_order (Samples.header_row ++ Samples.data_row "row_0" "A" "Yes")
    = Raised (ValueError SYMBOL)
  ∨ main default_order (Samples.header_row ++ Samples.data_row "row_0" "A" "Yes")
    = Raised (ValueError CORE_ENRICHMENT).
Proof. apply no_dataset_line_no_output. repeat constructor. Defined.

End run_extras.

(** ** The parser against the header row as written *)

Section by_name_facts.
Import PyStr PyList PyDict Parser Intersections Loop.

(** On a line that is no header line, or is the first header line of its
    block with its names at the same positions either way, the two readings
    move alike. *)
Lemma regular_advance c raw_line :
  (Spec.is_header_line (rstrip_nl raw_line) = true →
   Spec.columns c = None
   ∧ ByName.locate (rstrip_nl raw_line)
     = Spec.locate (header_columns (rstrip_nl raw_line))) →
  ByName.advance c raw_line = Spec.advance c raw_line.
Proof.
  intros Hreg. unfold ByName.advance, Spec.advance.
  destruct (Spec.is_blank _); [done|].
  destruct (Spec.is_dataset_line _); [done|].
  destruct (Spec.is_header_line _).
  - destruct (Hreg eq_refl) as [-> ->]. done.
  - destruct (Spec.columns c) as [[si ci]|]; [|done]. by destruct (Spec.block c).
Qed.

Lemma regular_cons c raw_line rest :
  ByName.regular c (raw_line :: rest) = true →
  ByName.advance c raw_line = Spec.advance c raw_line
  ∧ ByName.regular (Spec.advance c raw_line).1 rest = true.
Proof.
  cbn [ByName.regular]. intros [Hhead Hrest]%andb_true_iff.
  assert (ByName.advance c raw_line = Spec.advance c raw_line) as Heq.
  { apply regular_advance. intros Hm. rewrite Hm in Hhead.
    apply andb_true_iff in Hhead as [H1 H2].
    by apply bool_decide_eq_true in H1, H2. }
  split; [done|]. by rewrite <-Heq.
Qed.

Lemma regular_flagged_pairs lines :
  ∀ c, ByName.regular c lines = true →
       ByName.flagged_pairs c lines = Spec.flagged_pairs c lines
       ∧ ByName.cursor_after c lines = Blocks.cursor_after c lines.
Proof.
  induction lines as [|x r IH]; intros c Hreg; [done|].
  destruct (regular_cons _ _ _ Hreg) as [Heq Hrest].
  destruct (IH _ Hrest) as [IH1 IH2].
  cbn [ByName.flagged_pairs Spec.flagged_pairs]. unfold ByName.cursor_after, Blocks.cursor_after.
  cbn [fold_left]. rewrite Heq. destruct (Spec.advance c x) as [c' out]. simpl in *.
  split; [by rewrite IH1|exact IH2].
Qed.

Lemma scan_cursor h lines :
  ∀ st st', wf st → scan h st lines = inr st' →
            cursor_of st' = Blocks.cursor_after (cursor_of st) lines.
Proof.
  induction lines as [|x r IH]; intros st st' Hwf; simpl.
  - by intros [= <-].
  - destruct (step h st x) as [|st1] eqn:Hs; simpl; [done|]. intros Hscan.
    destruct (step_sim h st x st1 Hwf Hs) as (out & Hadv & _).
    unfold Blocks.cursor_after. cbn [fold_left]. rewrite Hadv. simpl.
    apply IH; [by eapply step_wf|done].
Qed.

(** X15.  When every header line of the input is the first of its block and
    has its two names at the same positions with empty header cells counted
    or not, a run that writes its output writes as many data rows to the
    full file as there are distinct gene symbols flagged under the header
    rows as written. *)
Theorem row_count_is_flagged_by_name o text full max :
  main o text = Exit 0 [full; max] →
  ByName.regular Spec.start (readlines text) = true →
  length (tail (records full)) = size (ByName.flagged_symbols (readlines text)).
Proof.
  intros (d & Hparse & _ & -> & _)%main_success_inv Hreg. simpl.
  rewrite length_map, sorted_rows_length.
  destruct (parse_lines_spec _ _ Hparse) as (_ & _ & Hmem).
  destruct (invert_spec o d) as [Hk _].
  rewrite <-(length_fmap fst), <-(size_list_to_set (C:=gset string)) by done.
  f_equal. apply set_eq. intros g. unfold ByName.flagged_symbols.
  rewrite (proj1 (regular_flagged_pairs _ _ Hreg)).
  rewrite !elem_of_list_to_set. fold (keys (invert_to_gene_counts o d)).
  rewrite invert_keys, list_elem_of_fmap. split.
  - intros [ds Hds%Hmem]. by exists (ds, g).
  - intros ([ds g'] & -> & Hin). exists ds. by apply Hmem.
Qed.

Lemma row_count_is_flagged_by_name_witness :
  length [["B"; "2"; "GSE1;GSE2"]; ["A"; "1"; "GSE1"]; ["C"; "1"; "GSE2"]]
  = size (ByName.flagged_symbols (readlines Samples.two_blocks)).
Proof.
  eapply (row_count_is_flagged_by_name default_order Samples.two_blocks
            (write_file full_name
               [Row "B" 2 ["GSE1"; "GSE2"]; Row "A" 1 ["GSE1"]; Row "C" 1 ["GSE2"]])).
  - vm_compute. reflexivity.
  - vm_compute. reflexivity.
Defined.

(** X16.  After lines whose header lines are regular in that sense, in a
    block [ds] whose header row has SYMBOL at position [si] and CORE
    ENRICHMENT at position [ci] as written, a data row adds its trimmed
    cell at [si] to the gene set of [ds] exactly when its cell at [ci],
    trimmed and lower-cased, is [yes] and the trimmed cell at [si] is not
    empty; otherwise it changes nothing. *)
Theorem symbol_added_iff_flagged_by_name h pre st raw_line ds si ci :
  let line := rstrip_nl raw_line in
  scan h init pre = inr st →
  ByName.regular Spec.start pre = true →
  ByName.cursor_after Spec.start pre
  = {| Spec.block := Some ds; Spec.columns := Some (si, ci) |} →
  Spec.is_blank line = false → Spec.is_dataset_line line = false →
  Spec.is_header_line line = false →
  ∃ genes,
    get ds (datasets_to_genes st) = Some genes
    ∧ step h st raw_line =
        inr (if Spec.flagged ci line && truthy (Spec.symbol_of si line)
             then add_symbol st ds genes (Spec.symbol_of si line)
             else st).
Proof.
  intros line Hscan Hreg Hcur Hb Hd Hm.
  assert (wf st) as Hwf by (eapply scan_wf; [apply wf_init|done]).
  assert (cursor_of st = {| Spec.block := Some ds; Spec.columns := Some (si, ci) |})
    as Hst.
  { rewrite (scan_cursor h pre init st wf_init Hscan).
    change (cursor_of init) with Spec.start.
    by rewrite <-(proj2 (regular_flagged_pairs _ _ Hreg)). }
  unfold cursor_of in Hst. injection Hst as Hc Hcols.
  destruct (header_cols st) as [cols|] eqn:Hh; [|done].
  destruct (symbol_idx st) as [si'|] eqn:Hsi; [|done].
  destruct (core_idx st) as [ci'|] eqn:Hci; [|done].
  injection Hcols as -> ->.
  pose proof (step_cases h st raw_line Hwf) as Hcase. fold line in Hcase.
  inversion Hcase as
    [Hb'|Hb' Hd'|si0 ci0 Hb' Hd' Hh' Hm' Hl|col Hb' Hd' Hh' Hm' Hl|Hb' Hd' Hm' Ho
    |ds0 cols0 si0 ci0 genes Hb' Hd' Hc' Hh' Hsi' Hci' Hg]; try congruence.
  - destruct Ho; congruence.
  - exists genes.
    assert (ds0 = ds) as -> by congruence.
    assert (si0 = si) as -> by congruence.
    assert (ci0 = ci) as -> by congruence. done.
Qed.

Lemma symbol_added_iff_flagged_by_name_witness :
  ∃ genes,
    get "GSE1" (datasets_to_genes Samples.in_block) = Some genes
    ∧ step no_handler Samples.in_block (Samples.data_row "row_0" "A" "Yes")
      = inr (if Spec.flagged 2 (rstrip_nl (Samples.data_row "row_0" "A" "Yes"))
                && truthy (Spec.symbol_of 1 (rstrip_nl (Samples.data_row "row_0" "A" "Yes")))
             then add_symbol Samples.in_block "GSE1" genes
                    (Spec.symbol_of 1 (rstrip_nl (Samples.data_row "row_0" "A" "Yes")))
             else Samples.in_block).
Proof.
  apply (symbol_added_iff_flagged_by_name no_handler
           [("GSE1" ++ Samples.nl)%string; Samples.header_row]);
    reflexivity.
Defined.

End by_name_facts.
